(** * The workspace metadata indexer of [scripts/gen_metadata.py]

    [read_workspace] reads the header of one workspace file (its version
    line and its metadata line), [process_dir] walks a directory and
    collects the headers of the [.grapycal] files below it, and [main]
    writes the collected tree to [metadata.json].

    Text is a [string] holding the UTF-8 encoding of the Python [str];
    the raw content of a file is a [list byte].  A Python call either
    returns a value or raises: [result].  The library functions the script
    calls on file contents ([json.loads], the UTF-8 text layer of [open],
    [gzip.open] and [json.dump]) are parameters of the model; instances of
    them that run are given in the modules [Json], [Utf8] and [Gzip].

    A text stream decodes its file piece by piece as it is read, so a
    file that cannot be read to its end still yields its first lines: a
    text layer gives, for the content of a file, the whole text or the
    exception of [f.read()], and for a file that cannot be read whole the
    text that [f.readline()] can take before the stream raises.  The disk
    is a finite tree that stays as it is during a run: the [OSError]s of
    [os.listdir] and [open], and the recursion limit of the walk, are
    left out. *)

From Stdlib Require Import List String Ascii Bool Arith NArith ZArith Lia.
From Stdlib Require Import DecimalString.
From Stdlib.Strings Require Import Byte.
Import ListNotations.
Set Warnings "-register-all,-abstract-large-number".
Local Open Scope list_scope.
Local Open Scope string_scope.

(** ** Exceptions and results *)

Inductive exn : Type :=
| JSONDecodeError
| UnicodeDecodeError
| BadGzipFile
| EOFError
| ZlibError
| RecursionError
| ValueError
| TypeError
| NotADirectoryError.

Inductive result (A : Type) : Type :=
| Ok (a : A)
| Raise (e : exn).

Arguments Ok {A} a.
Arguments Raise {A} e.

Definition exn_eqb (a b : exn) : bool :=
  match a, b with
  | JSONDecodeError, JSONDecodeError
  | UnicodeDecodeError, UnicodeDecodeError
  | BadGzipFile, BadGzipFile
  | EOFError, EOFError
  | ZlibError, ZlibError
  | RecursionError, RecursionError
  | ValueError, ValueError
  | TypeError, TypeError
  | NotADirectoryError, NotADirectoryError => true
  | _, _ => false
  end.

(** ** JSON values

    What [json.loads] builds: [None], [bool], [int], [float] (kept as the
    literal it was read from), [str], [list] and [dict].  A [dict] keeps
    its keys in insertion order, so it is an association list. *)

Inductive json : Type :=
| JNull
| JBool (b : bool)
| JInt (z : Z)
| JFloat (literal : string)
| JString (s : string)
| JArray (items : list json)
| JObject (members : list (string * json)).

Definition dict := list (string * json).

Fixpoint dict_get (k : string) (d : dict) : option json :=
  match d with
  | [] => None
  | (k', v) :: d' => if String.eqb k' k then Some v else dict_get k d'
  end.

(** [d[k] = v] on a [dict]: an existing key keeps its place and takes the
    new value, a new key goes last. *)
Fixpoint dict_set (k : string) (v : json) (d : dict) : dict :=
  match d with
  | [] => [(k, v)]
  | (k', v') :: d' =>
      if String.eqb k' k then (k', v) :: d' else (k', v') :: dict_set k v d'
  end.

(** [o[k] = v] for a string [k]: only a [dict] takes it; a [list] wants an
    integer index, and the other values support no item assignment. *)
Definition setitem (o : json) (k : string) (v : json) : result json :=
  match o with
  | JObject d => Ok (JObject (dict_set k v d))
  | _ => Raise TypeError
  end.

Definition get (k : string) (o : json) : option json :=
  match o with
  | JObject d => dict_get k d
  | _ => None
  end.

(** ** Strings *)

Definition LF : ascii := ascii_of_nat 10.
Definition CR : ascii := ascii_of_nat 13.

(** The line terminator of a text stream. *)
Definition nl : string := String LF "".

(** [str.isspace] on an ASCII character: tab to carriage return, the four
    separators 0x1C to 0x1F, and the space. *)
Definition isspace (c : ascii) : bool :=
  let n := nat_of_ascii c in
  ((9 <=? n) && (n <=? 13) || (28 <=? n) && (n <=? 32))%nat.

(** The white-space characters beyond ASCII, by their UTF-8 encoding:
    U+0085, U+00A0, U+1680, U+2000 to U+200A, U+2028, U+2029, U+202F,
    U+205F and U+3000. *)
Definition wide_spaces : list (list ascii) :=
  map (map ascii_of_nat)
    [ [194; 133]; [194; 160]; [225; 154; 128];
      [226; 128; 128]; [226; 128; 129]; [226; 128; 130]; [226; 128; 131];
      [226; 128; 132]; [226; 128; 133]; [226; 128; 134]; [226; 128; 135];
      [226; 128; 136]; [226; 128; 137]; [226; 128; 138];
      [226; 128; 168]; [226; 128; 169]; [226; 128; 175];
      [226; 129; 159]; [227; 128; 128] ]%nat.

Fixpoint drop_prefix (p l : list ascii) : option (list ascii) :=
  match p, l with
  | [], _ => Some l
  | a :: p', b :: l' => if Ascii.eqb a b then drop_prefix p' l' else None
  | _ :: _, [] => None
  end.

(** One white-space character off the front of [l], when it starts with
    one. *)
Definition space_prefix (wide : list (list ascii)) (l : list ascii)
  : option (list ascii) :=
  match l with
  | [] => None
  | c :: r =>
      if isspace c then Some r
      else fold_right
             (fun p other =>
                match drop_prefix p l with Some r' => Some r' | None => other end)
             None wide
  end.

Fixpoint lstrip_upto (n : nat) (wide : list (list ascii)) (l : list ascii)
  : list ascii :=
  match n with
  | O => l
  | S n' =>
      match space_prefix wide l with
      | Some r => lstrip_upto n' wide r
      | None => l
      end
  end.

Definition lstrip (l : list ascii) : list ascii :=
  lstrip_upto (List.length l) wide_spaces l.

Definition rstrip (l : list ascii) : list ascii :=
  rev (lstrip_upto (List.length l) (map (@rev ascii) wide_spaces) (rev l)).

(** [s.strip()] *)
Definition strip (s : string) : string :=
  string_of_list_ascii (lstrip (rstrip (list_ascii_of_string s))).

(** [s.endswith(suffix)]: some tail of [s] is [suffix]. *)
Fixpoint endswith (s suffix : string) : bool :=
  if String.eqb s suffix then true
  else match s with
       | EmptyString => false
       | String _ r => endswith r suffix
       end.

Definition sep : string := "/".

(** [os.path.join(a, b)] of [posixpath]. *)
Definition join (a b : string) : string :=
  if prefix sep b then b
  else if String.eqb a "" || endswith a sep then a ++ b
  else a ++ sep ++ b.

(** [os.path.basename(p)]: what follows the last separator. *)
Fixpoint last_component (acc p : string) : string :=
  match p with
  | EmptyString => acc
  | String c r =>
      if Ascii.eqb c "/" then last_component "" r
      else last_component (acc ++ String c "") r
  end.

Definition basename (p : string) : string := last_component "" p.

(** ** Text streams

    The file object [f] of the [with] block: the text it yields and what
    of it is still unread.  [caught] lists the exceptions an [except]
    clause has caught while [f] was open; the program does not read it.

    A stream decodes its file piece by piece, as the reads ask for more.
    [breaks] is [None] for a stream that can be read to its end.  A
    stream that cannot has [text] for the text it delivers before it
    fails, and in [breaks] the exception of a [readline] that needs more
    than [text], then the exception of [read], which takes the whole
    content in one piece. *)

Record stream : Type := {
  text : string;
  unread : string;
  caught : list exn;
  breaks : option (exn * exn)
}.

Definition fopen (t : string) : stream :=
  {| text := t; unread := t; caught := []; breaks := None |}.

(** The stream of a file that cannot be read to its end. *)
Definition fopen_broken (delivered : string) (e_line e_read : exn) : stream :=
  {| text := delivered; unread := delivered; caught := [];
     breaks := Some (e_line, e_read) |}.

Definition set_unread (r : string) (f : stream) : stream :=
  {| text := text f; unread := r; caught := caught f; breaks := breaks f |}.

(** A statement of the [with] block: it runs on the stream, returns or
    raises, and leaves the stream where its reads ended. *)
Definition io (A : Type) : Type := stream -> result A * stream.

Definition ret {A} (a : A) : io A := fun f => (Ok a, f).

Definition bind {A B} (m : io A) (k : A -> io B) : io B :=
  fun f =>
    match m f with
    | (Ok a, f') => k a f'
    | (Raise e, f') => (Raise e, f')
    end.

Definition lift {A} (r : result A) : io A := fun f => (r, f).

Notation "x <- m ;; k" := (bind m (fun x => k))
  (at level 61, m at next level, right associativity).
Notation "m ;;; k" := (bind m (fun _ => k))
  (at level 61, right associativity).

(** The first line of [s], its line feed included, and the rest. *)
Fixpoint split_line (s : string) : string * string :=
  match s with
  | EmptyString => (EmptyString, EmptyString)
  | String c r =>
      if Ascii.eqb c LF then (String c EmptyString, r)
      else let (l, r') := split_line r in (String c l, r')
  end.

(** [s] holds no line feed. *)
Fixpoint single_line (s : string) : bool :=
  match s with
  | EmptyString => true
  | String c r => negb (Ascii.eqb c LF) && single_line r
  end.

(** [f.readline()]: the next line when the text at hand holds its line
    feed; without one the stream is asked for more, which ends the line at
    the end of the file and raises on a stream that breaks. *)
Definition readline : io string :=
  fun f =>
    let (l, r) := split_line (unread f) in
    match breaks f with
    | None => (Ok l, set_unread r f)
    | Some (e_line, _) =>
        if single_line l then (Raise e_line, f) else (Ok l, set_unread r f)
    end.

(** [f.read()] *)
Definition read : io string :=
  fun f =>
    match breaks f with
    | None => (Ok (unread f), set_unread "" f)
    | Some (_, e_read) => (Raise e_read, f)
    end.

(** [f.seek(0)] *)
Definition seek0 : io unit :=
  fun f => (Ok tt, set_unread (text f) f).

(** [try: body / except json.decoder.JSONDecodeError: handler], followed
    by [rest] when the body raised nothing.  The handler of
    [read_workspace] ends in [return], so [rest] runs only after a body
    that completed.  Any other exception leaves the statement. *)
Definition try_except_JSONDecodeError {A B}
  (body : io A) (handler : io B) (rest : A -> io B) : io B :=
  fun f =>
    match body f with
    | (Ok a, f') => rest a f'
    | (Raise e, f') =>
        if exn_eqb e JSONDecodeError
        then handler {| text := text f'; unread := unread f';
                        caught := (caught f' ++ [e])%list;
                        breaks := breaks f' |}
        else (Raise e, f')
    end.

(** ** The header reader: [read_workspace] *)

Definition bytes_eqb (a b : list byte) : bool :=
  if list_eq_dec Byte.byte_eq_dec a b then true else false.

(** The gzip magic number, [b'\x1f\x8b']. *)
Definition gzip_magic : list byte := [x1f; x8b].

(** A file tree as [os.listdir], [os.path.isdir] and [os.path.isfile]
    show it: a directory lists its children by name in the order of the
    listing, a regular file has a content, and [Other] is an entry that is
    neither (a dangling link, a socket). *)
Inductive node : Type :=
| Dir (children : list (string * node))
| File (raw : list byte)
| Other.

(** The calls of the walk that touch the disk: [os.listdir(path)] at the
    start of [process_dir(path)], and [read_workspace(path, ...)]. *)
Inductive event : Type :=
| Listdir (path : string)
| ReadHeader (path : string).

(** What the project directory holds: the tree under [files] and the
    text of [metadata.json], when that file exists. *)
Record project : Type := {
  files_dir : node;
  metadata_json : option string
}.

Section Reader.

(** [json.loads] on a [str]. *)
Variable json_loads : string -> result json.

(** The text that [open(path, 'r', encoding='utf-8')] yields for a file
    of the given content when it is read to its end, or the exception
    that [f.read()] raises. *)
Variable utf8_text : list byte -> result string.

(** The same for [gzip.open(path, 'rt')], which decodes with the
    encoding of the locale. *)
Variable gzip_text : list byte -> result string.

(** For a file that cannot be read whole: the text that the line reads
    of [open(path, 'r', encoding='utf-8')] can take before the stream
    raises, and the exception of the read that needs more. *)
Variable utf8_lines : list byte -> string * exn.

(** The same for [gzip.open(path, 'rt')]. *)
Variable gzip_lines : list byte -> string * exn.

(** The text that [json.dump(metadata, f, indent=4)] writes. *)
Variable json_dump : json -> string.

(** Lines 66 to 71: the first two bytes choose how the file is opened. *)
Definition open_func (raw : list byte) : result string :=
  let magic_number := firstn 2 raw in
  if bytes_eqb magic_number gzip_magic then gzip_text raw else utf8_text raw.

(** What the line reads of the stream so opened get from a file that
    cannot be read whole. *)
Definition open_lines (raw : list byte) : string * exn :=
  let magic_number := firstn 2 raw in
  if bytes_eqb magic_number gzip_magic then gzip_lines raw else utf8_lines raw.

(** Lines 77 and 78, the body of the [try]. *)
Definition try_body : io (string * json) :=
  line <- readline ;;
  let version := strip line in
  line <- readline ;;
  metadata <- lift (json_loads line) ;;
  ret (version, metadata).

(** Lines 80 to 84, the [except] clause. *)
Definition except_body (metadata_only : bool)
  : io (string * json * option json) :=
  seek0 ;;;
  let version := "0.9.0" in
  let metadata := JObject [] in
  data <- (if negb metadata_only
           then s <- read ;; d <- lift (json_loads s) ;; ret (Some d)
           else ret None) ;;
  ret (version, metadata, data).

(** Lines 86 to 90, after a [try] that raised nothing. *)
Definition after_try (metadata_only : bool)
  : io (string * json * option json) :=
  seek0 ;;;
  line <- readline ;;
  let version := strip line in
  line <- readline ;;
  metadata <- lift (json_loads line) ;;
  data <- (if negb metadata_only
           then line <- readline ;; d <- lift (json_loads line) ;; ret (Some d)
           else ret None) ;;
  ret (version, metadata, data).

(** Lines 73 to 90, the [with] block on the opened stream. *)
Definition with_open (metadata_only : bool)
  : io (string * json * option json) :=
  try_except_JSONDecodeError
    try_body (except_body metadata_only) (fun _ => after_try metadata_only).

(** The run of the [with] block on a stream that yields [t]: what is
    returned or raised, and the stream as it is left. *)
Definition read_text (t : string) (metadata_only : bool)
  : result (string * json * option json) * stream :=
  with_open metadata_only (fopen t).

(** The same on a stream that delivers [delivered] and then breaks. *)
Definition read_broken (delivered : string) (e_line e_read : exn)
  (metadata_only : bool) : result (string * json * option json) * stream :=
  with_open metadata_only (fopen_broken delivered e_line e_read).

(** [read_workspace(path, metadata_only)] where [raw] is the content of
    the file at [path].  The payload [data] is [Some d] for the value [d]
    that [json.loads] built and [None] for the [None] of a metadata-only
    read; in Python the JSON value [null] is that same [None]. *)
Definition read_workspace (path : string) (raw : list byte)
  (metadata_only : bool) : result (string * json * option json) :=
  match open_func raw with
  | Ok t => fst (read_text t metadata_only)
  | Raise e_read =>
      let (delivered, e_line) := open_lines raw in
      fst (read_broken delivered e_line e_read metadata_only)
  end.

(** ** The directory walk: [process_dir] *)

Definition extension : string := ".grapycal".

(** Lines 110 and 111: the header of the file [p] of the directory, read
    without its payload, with the file name put under ["name"].  The
    version is read and not used. *)
Definition index_file (full_path p : string) (raw : list byte) : result json :=
  match read_workspace full_path raw true with
  | Ok (version, metadata, _) => setitem metadata "name" (JString p)
  | Raise e => Raise e
  end.

Section Children.

(** The recursive call on a child directory. *)
Variable recurse : string -> node -> result json * list event.
Variable path : string.

(** The [for p in os.listdir(path)] loop and the [return] after it, with
    the two lists built so far. *)
Fixpoint for_listdir (ps : list (string * node)) (folders files : list json)
  : result json * list event :=
  match ps with
  | [] =>
      (Ok (JObject [ ("name", JString (basename path));
                     ("files", JArray files);
                     ("dirs", JArray folders) ]), [])
  | (p, child) :: ps' =>
      let full_path := join path p in
      match child with
      | Dir _ =>
          match recurse full_path child with
          | (Ok d, t) =>
              let (r, t') := for_listdir ps' (folders ++ [d]) files in
              (r, (t ++ t')%list)
          | (Raise e, t) => (Raise e, t)
          end
      | File raw =>
          if endswith full_path extension then
            match index_file full_path p raw with
            | Ok metadata =>
                let (r, t') := for_listdir ps' folders (files ++ [metadata]) in
                (r, ReadHeader full_path :: t')
            | Raise e => (Raise e, [ReadHeader full_path])
            end
          else for_listdir ps' folders files
      | Other => for_listdir ps' folders files
      end
  end.

End Children.

(** [process_dir(path)] on the tree found at [path], with the calls it
    made on the disk. *)
Fixpoint process_dir (path : string) (n : node) {struct n}
  : result json * list event :=
  match n with
  | Dir children =>
      let (r, t) := for_listdir process_dir path children [] [] in
      (r, Listdir path :: t)
  | _ => (Raise NotADirectoryError, [Listdir path])
  end.

(** The value [process_dir(path)] returns; the spec's [scan_directory]. *)
Definition scan_directory (path : string) (n : node) : result json :=
  fst (process_dir path n).

(** ** [main] *)

(** [main()] with the project directory at [root]: the walk of
    [root/files], then the write of [root/metadata.json]. *)
Definition main (root : string) (w : project) : result unit * project :=
  let workspaces := join root "files" in
  match scan_directory workspaces (files_dir w) with
  | Ok metadata =>
      (Ok tt, {| files_dir := files_dir w;
                 metadata_json := Some (json_dump metadata) |})
  | Raise e => (Raise e, w)
  end.

End Reader.

(** ** A JSON decoder that runs

    [Json.loads] follows the grammar [json.loads] accepts: white space is
    space, tab, line feed and carriage return; the literals are [null],
    [true], [false], [NaN], [Infinity] and [-Infinity]; a number without
    fraction and exponent is an [int]; a string holds no raw control
    character and the escapes are the nine of JSON; a repeated key keeps
    its first place and its last value; text after the value is an error.
    A text outside the grammar raises [JSONDecodeError].  The scanner
    reads from left to right, and two limits of the interpreter stop it
    where it meets them: an [int] of more than 4300 digits raises
    [ValueError], and arrays and objects nested deeper than the recursion
    limit allows raise [RecursionError]. *)

Module Json.

Definition is_ws (c : ascii) : bool :=
  let n := nat_of_ascii c in
  ((n =? 32) || (n =? 9) || (n =? 10) || (n =? 13))%nat.

Fixpoint skip (s : string) : string :=
  match s with
  | String c r => if is_ws c then skip r else s
  | EmptyString => s
  end.

Definition is_digit (c : ascii) : bool :=
  let n := nat_of_ascii c in ((48 <=? n) && (n <=? 57))%nat.

(** The longest run of digits at the front of [s], and the rest. *)
Fixpoint digits (s : string) : string * string :=
  match s with
  | String c r =>
      if is_digit c then let (d, r') := digits r in (String c d, r')
      else (EmptyString, s)
  | EmptyString => (EmptyString, EmptyString)
  end.

Fixpoint decimal (acc : Z) (s : string) : Z :=
  match s with
  | String c r => decimal (10 * acc + Z.of_nat (nat_of_ascii c - 48)) r
  | EmptyString => acc
  end.

(** A number at the front of [s]: an optional minus sign; a zero, or a
    digit other than zero and the digits after it; then, when digits
    follow it, a point; then, when digits follow it, [e] or [E] with an
    optional sign. *)
(** [sys.get_int_max_str_digits()] *)
Definition int_max_str_digits : nat := 4300.

Definition number (s : string) : result (json * string) :=
  let (sign, s1) :=
    match s with
    | String "-"%char r => ("-", r)
    | _ => ("", s)
    end in
  match s1 with
  | String c r =>
      if is_digit c then
        let (int_part, s2) :=
          if Ascii.eqb c "0" then ("0", r) else digits s1 in
        let (frac_part, s3) :=
          match s2 with
          | String "."%char r2 =>
              let (d, r3) := digits r2 in
              if String.eqb d "" then ("", s2) else (String "." d, r3)
          | _ => ("", s2)
          end in
        let (exp_part, s4) :=
          match s3 with
          | String e r3 =>
              if Ascii.eqb e "e" || Ascii.eqb e "E" then
                let (sg, r4) :=
                  match r3 with
                  | String "+"%char r' => ("+", r')
                  | String "-"%char r' => ("-", r')
                  | _ => ("", r3)
                  end in
                let (d, r5) := digits r4 in
                if String.eqb d "" then ("", s3) else (String e (sg ++ d), r5)
              else ("", s3)
          | EmptyString => ("", s3)
          end in
        if String.eqb frac_part "" && String.eqb exp_part "" then
          if (int_max_str_digits <? String.length int_part)%nat
          then Raise ValueError
          else
            let n := decimal 0 int_part in
            Ok (JInt (if String.eqb sign "" then n else (- n)%Z), s4)
        else Ok (JFloat (sign ++ int_part ++ frac_part ++ exp_part), s4)
      else Raise JSONDecodeError
  | EmptyString => Raise JSONDecodeError
  end.

Definition hex_digit (c : ascii) : option N :=
  let n := N_of_ascii c in
  if ((48 <=? n) && (n <=? 57))%N then Some (n - 48)%N
  else if ((65 <=? n) && (n <=? 70))%N then Some (n - 55)%N
  else if ((97 <=? n) && (n <=? 102))%N then Some (n - 87)%N
  else None.

Definition hex4 (a b c d : ascii) : option N :=
  match hex_digit a, hex_digit b, hex_digit c, hex_digit d with
  | Some x, Some y, Some z, Some w =>
      Some (((x * 16 + y) * 16 + z) * 16 + w)%N
  | _, _, _, _ => None
  end.

(** The UTF-8 encoding of a code point. *)
Definition utf8_encode (cp : N) : string :=
  let ch n := String (ascii_of_N n) "" in
  if (cp <? 128)%N then ch cp
  else if (cp <? 2048)%N then
    ch (192 + cp / 64)%N ++ ch (128 + cp mod 64)%N
  else if (cp <? 65536)%N then
    ch (224 + cp / 4096)%N ++ ch (128 + (cp / 64) mod 64)%N
    ++ ch (128 + cp mod 64)%N
  else
    ch (240 + cp / 262144)%N ++ ch (128 + (cp / 4096) mod 64)%N
    ++ ch (128 + (cp / 64) mod 64)%N ++ ch (128 + cp mod 64)%N.

Definition simple_escape (c : ascii) : option ascii :=
  let n := nat_of_ascii c in
  if (n =? 34)%nat then Some c                      (* quote *)
  else if (n =? 92)%nat then Some c                 (* backslash *)
  else if (n =? 47)%nat then Some c                 (* slash *)
  else if (n =? 98)%nat then Some (ascii_of_nat 8)  (* b *)
  else if (n =? 102)%nat then Some (ascii_of_nat 12) (* f *)
  else if (n =? 110)%nat then Some (ascii_of_nat 10) (* n *)
  else if (n =? 114)%nat then Some (ascii_of_nat 13) (* r *)
  else if (n =? 116)%nat then Some (ascii_of_nat 9)  (* t *)
  else None.

(** The rest of a string literal, after its opening quote: the decoded
    string and what follows the closing quote. *)
Fixpoint scanstring (s : string) : option (string * string) :=
  match s with
  | EmptyString => None
  | String c r =>
      if (nat_of_ascii c =? 34)%nat then Some ("", r)
      else if (nat_of_ascii c <? 32)%nat then None
      else if (nat_of_ascii c =? 92)%nat then
        match r with
        | String "u"%char (String h1 (String h2 (String h3 (String h4 r1)))) =>
            match hex4 h1 h2 h3 h4 with
            | Some hi =>
                let single :=
                  match scanstring r1 with
                  | Some (body, r') => Some (utf8_encode hi ++ body, r')
                  | None => None
                  end in
                if ((55296 <=? hi) && (hi <=? 56319))%N then
                  match r1 with
                  | String "\"%char (String "u"%char
                      (String l1 (String l2 (String l3 (String l4 r2))))) =>
                      match hex4 l1 l2 l3 l4 with
                      | Some lo =>
                          if ((56320 <=? lo) && (lo <=? 57343))%N then
                            match scanstring r2 with
                            | Some (body, r') =>
                                Some (utf8_encode
                                        (65536 + (hi - 55296) * 1024 + (lo - 56320))%N
                                      ++ body, r')
                            | None => None
                            end
                          else single
                      | None => None
                      end
                  | _ => single
                  end
                else single
            | None => None
            end
        | String e r1 =>
            match simple_escape e with
            | Some ch =>
                match scanstring r1 with
                | Some (body, r') => Some (String ch body, r')
                | None => None
                end
            | None => None
            end
        | EmptyString => None
        end
      else
        match scanstring r with
        | Some (body, r') => Some (String c body, r')
        | None => None
        end
  end.

(** [s] without its first [n] characters. *)
Fixpoint drop (n : nat) (s : string) : string :=
  match n, s with
  | S n', String _ r => drop n' r
  | _, _ => s
  end.

Definition literals : list (string * json) :=
  [ ("null", JNull); ("true", JBool true); ("false", JBool false);
    ("NaN", JFloat "NaN"); ("Infinity", JFloat "Infinity");
    ("-Infinity", JFloat "-Infinity") ].

Fixpoint literal (ls : list (string * json)) (s : string)
  : option (json * string) :=
  match ls with
  | [] => None
  | (w, v) :: ls' =>
      if prefix w s then Some (v, drop (String.length w) s) else literal ls' s
  end.

(** The nesting of arrays and objects that the recursion limit of the
    interpreter, 1000 frames unless it is changed, leaves to the decoder
    when [read_workspace] is called for a file of the first directory of
    the walk; a directory further down leaves one level less per level. *)
Definition nesting_limit : nat := 992.

(** One value at the front of [s]; [elements] and [members] read what
    follows the first item of an array and of an object.  Each call uses
    one unit of [fuel] and, every second call at the latest, a character
    of [s]; [depth] is the nesting still allowed. *)
Fixpoint value (fuel depth : nat) (s : string) {struct fuel}
  : result (json * string) :=
  match fuel with
  | O => Raise JSONDecodeError
  | S fuel' =>
      match s with
      | EmptyString => Raise JSONDecodeError
      | String c r =>
          if Ascii.eqb c "{" then
            match depth with
            | O => Raise RecursionError
            | S depth' =>
                match skip r with
                | String "}"%char r' => Ok (JObject [], r')
                | s' => members fuel' depth' s' []
                end
            end
          else if Ascii.eqb c "[" then
            match depth with
            | O => Raise RecursionError
            | S depth' =>
                match skip r with
                | String "]"%char r' => Ok (JArray [], r')
                | s' => elements fuel' depth' s' []
                end
            end
          else if (nat_of_ascii c =? 34)%nat then
            match scanstring r with
            | Some (str, r') => Ok (JString str, r')
            | None => Raise JSONDecodeError
            end
          else
            match literal literals s with
            | Some found => Ok found
            | None => number s
            end
      end
  end
with elements (fuel depth : nat) (s : string) (seen : list json) {struct fuel}
  : result (json * string) :=
  match fuel with
  | O => Raise JSONDecodeError
  | S fuel' =>
      match value fuel' depth s with
      | Ok (v, r) =>
          match skip r with
          | String "]"%char r' => Ok (JArray (seen ++ [v]), r')
          | String ","%char r' => elements fuel' depth (skip r') (seen ++ [v])
          | _ => Raise JSONDecodeError
          end
      | Raise e => Raise e
      end
  end
with members (fuel depth : nat) (s : string) (seen : dict) {struct fuel}
  : result (json * string) :=
  match fuel with
  | O => Raise JSONDecodeError
  | S fuel' =>
      match s with
      | String q r =>
          if (nat_of_ascii q =? 34)%nat then
            match scanstring r with
            | Some (key, r1) =>
                match skip r1 with
                | String ":"%char r2 =>
                    match value fuel' depth (skip r2) with
                    | Ok (v, r3) =>
                        match skip r3 with
                        | String "}"%char r' =>
                            Ok (JObject (dict_set key v seen), r')
                        | String ","%char r' =>
                            members fuel' depth (skip r') (dict_set key v seen)
                        | _ => Raise JSONDecodeError
                        end
                    | Raise e => Raise e
                    end
                | _ => Raise JSONDecodeError
                end
            | None => Raise JSONDecodeError
            end
          else Raise JSONDecodeError
      | EmptyString => Raise JSONDecodeError
      end
  end.

Definition loads (s : string) : result json :=
  match value (2 * String.length s + 2) nesting_limit (skip s) with
  | Ok (v, r) =>
      match skip r with
      | EmptyString => Ok v
      | String _ _ => Raise JSONDecodeError
      end
  | Raise e => Raise e
  end.

(** The code points of a well-formed UTF-8 string. *)
Fixpoint code_points (l : list N) : list N :=
  match l with
  | [] => []
  | a :: r =>
      if (a <? 128)%N then a :: code_points r
      else
        match r with
        | [] => []
        | b :: r2 =>
            if (a <? 224)%N then
              ((a - 192) * 64 + (b - 128))%N :: code_points r2
            else
              match r2 with
              | [] => []
              | c :: r3 =>
                  if (a <? 240)%N then
                    (((a - 224) * 64 + (b - 128)) * 64 + (c - 128))%N
                    :: code_points r3
                  else
                    match r3 with
                    | [] => []
                    | d :: r4 =>
                        ((((a - 240) * 64 + (b - 128)) * 64 + (c - 128)) * 64
                         + (d - 128))%N :: code_points r4
                    end
              end
        end
  end.

Definition hex_char (n : N) : ascii :=
  if (n <? 10)%N then ascii_of_N (48 + n) else ascii_of_N (87 + n).

(** [\uXXXX] with four lower-case hexadecimal digits. *)
Definition u_escape (n : N) : string :=
  String "\" (String "u"
    (String (hex_char (n / 4096 mod 16)) (String (hex_char (n / 256 mod 16))
      (String (hex_char (n / 16 mod 16)) (String (hex_char (n mod 16)) ""))))).

(** One code point of a string as [json.dump] writes it with the default
    [ensure_ascii=True]. *)
Definition escape (cp : N) : string :=
  if (cp =? 34)%N then String "\" (String (ascii_of_N 34) "")
  else if (cp =? 92)%N then String "\" (String "\" "")
  else if (cp =? 10)%N then String "\" "n"
  else if (cp =? 13)%N then String "\" "r"
  else if (cp =? 9)%N then String "\" "t"
  else if (cp =? 8)%N then String "\" "b"
  else if (cp =? 12)%N then String "\" "f"
  else if ((32 <=? cp) && (cp <=? 126))%N then String (ascii_of_N cp) ""
  else if (cp <? 65536)%N then u_escape cp
  else u_escape (55296 + (cp - 65536) / 1024)
       ++ u_escape (56320 + (cp - 65536) mod 1024).

Definition quoted (s : string) : string :=
  String (ascii_of_N 34)
    (concat "" (map escape (code_points (map N_of_ascii (list_ascii_of_string s))))
     ++ String (ascii_of_N 34) "").

(** *** Floats

    [json.loads] turns a number with a fraction or an exponent into the
    nearest [float], a binary64 number, and [json.dump] writes the
    [repr] of a [float]: the shortest decimal that reads back as the
    same [float] and, of those, the nearest to it. *)

(** The binary64 number nearest to [n / d], for [n] and [d] above zero,
    as [(q, e)] for [q * 2 ^ e]; ties go to the even [q].  [None] is a
    number too large for a [float]. *)
Definition nearest_float (n d : Z) : option (Z * Z) :=
  let b := (Z.log2 n - Z.log2 d)%Z in
  let above := if (0 <=? b)%Z then (d * 2 ^ b <=? n)%Z else (d <=? n * 2 ^ (- b))%Z in
  let e := Z.max ((if above then b else b - 1) - 52) (- 1074) in
  let num := if (e <? 0)%Z then (n * 2 ^ (- e))%Z else n in
  let den := if (e <? 0)%Z then d else (d * 2 ^ e)%Z in
  let q := (num / den)%Z in
  let r := (num mod den)%Z in
  let q := if (den <? 2 * r)%Z || ((2 * r =? den)%Z && Z.odd q) then (q + 1)%Z else q in
  let (q, e) := if (q =? 2 ^ 53)%Z then ((2 ^ 52)%Z, (e + 1)%Z) else (q, e) in
  if (971 <? e)%Z then None else Some (q, e).

(** [n * 10 ^ s] as a fraction. *)
Definition scaled (n s : Z) : Z * Z :=
  if (0 <=? s)%Z then ((n * 10 ^ s)%Z, 1%Z) else (n, (10 ^ (- s))%Z).

Definition nearest_scaled (n s : Z) : option (Z * Z) :=
  let (num, den) := scaled n s in nearest_float num den.

Definition digits_of (n : Z) : string :=
  NilZero.string_of_uint (N.to_uint (Z.to_N n)).

Definition digit_count (n : Z) : Z := Z.of_nat (String.length (digits_of n)).

Inductive float : Type :=
| nan
| inf (negative : bool)
| finite (negative : bool) (q e : Z).

(** [float(literal)], for a literal of [number] or one of [literals]. *)
Definition float_of (literal : string) : float :=
  if String.eqb literal "NaN" then nan
  else if String.eqb literal "Infinity" then inf false
  else if String.eqb literal "-Infinity" then inf true
  else
    let (negative, s) :=
      match literal with
      | String "-"%char r => (true, r)
      | _ => (false, literal)
      end in
    let (int_part, s1) := digits s in
    let (frac_part, s2) :=
      match s1 with
      | String "."%char r => digits r
      | _ => ("", s1)
      end in
    let exponent :=
      match s2 with
      | String _ (String "-"%char r) => (- decimal 0 r)%Z
      | String _ (String "+"%char r) => decimal 0 r
      | String _ r => decimal 0 r
      | EmptyString => 0%Z
      end in
    let d := decimal 0 (int_part ++ frac_part) in
    let e := (exponent - Z.of_nat (String.length frac_part))%Z in
    if (d =? 0)%Z then finite negative 0 0
    else if (309 <=? digit_count d - 1 + e)%Z then inf negative
    else if (digit_count d + e <? - 330)%Z then finite negative 0 0
    else
      match nearest_scaled d e with
      | Some (q, e') => finite negative q e'
      | None => inf negative
      end.

(** The decimal [c * 10 ^ s] of [p] digits that [repr] takes for
    [q * 2 ^ e], when there is one: the numbers of [p] digits next to it
    are tried, below and above. *)
Definition with_digits (q e k : Z) (p : Z) : option (Z * Z) :=
  let s := (k - p + 1)%Z in
  let (n, d) := if (0 <=? e)%Z then ((q * 2 ^ e)%Z, 1%Z) else (q, (2 ^ (- e))%Z) in
  let num := if (0 <=? s)%Z then n else (n * 10 ^ (- s))%Z in
  let den := if (0 <=? s)%Z then (d * 10 ^ s)%Z else d in
  let lo := (num / den)%Z in
  let r := (num mod den)%Z in
  let reads_back c :=
    negb (c =? 0)%Z
    && match nearest_scaled c s with
       | Some (q', e') => (q' =? q)%Z && (e' =? e)%Z
       | None => false
       end in
  match reads_back lo, reads_back (lo + 1)%Z with
  | true, true =>
      if (2 * r <? den)%Z || ((2 * r =? den)%Z && Z.even lo) then Some (lo, s)
      else Some ((lo + 1)%Z, s)
  | true, false => Some (lo, s)
  | false, true => Some ((lo + 1)%Z, s)
  | false, false => None
  end.

Fixpoint shortest_from (q e k : Z) (p : Z) (more : nat) : Z * Z :=
  match with_digits q e k p, more with
  | Some found, _ => found
  | None, S more' => shortest_from q e k (p + 1) more'
  | None, O => (q, e)
  end.

(** The decimal exponent of [q * 2 ^ e]: the [k] with
    [10 ^ k <= q * 2 ^ e < 10 ^ (k + 1)]. *)
Definition decimal_exponent (q e : Z) : Z :=
  let (n, d) := if (0 <=? e)%Z then ((q * 2 ^ e)%Z, 1%Z) else (q, (2 ^ (- e))%Z) in
  let k := (digit_count n - digit_count d)%Z in
  let above := if (0 <=? k)%Z then (d * 10 ^ k <=? n)%Z else (d <=? n * 10 ^ (- k))%Z in
  if above then k else (k - 1)%Z.

(** Seventeen digits tell any two [float]s apart. *)
Definition shortest (q e : Z) : Z * Z :=
  shortest_from q e (decimal_exponent q e) 1 16.

Fixpoint zeros (n : nat) : string :=
  match n with
  | O => ""
  | S n' => String "0" (zeros n')
  end.

Fixpoint without_trailing_zeros (s : string) : string :=
  match s with
  | EmptyString => EmptyString
  | String c r =>
      let r' := without_trailing_zeros r in
      if String.eqb r' "" && Ascii.eqb c "0" then "" else String c r'
  end.

(** [repr] of the positive [float] with the digits [ds] and the decimal
    point after [decpt] of them: with an exponent when the point lies
    more than 16 places to the right of the first digit or more than
    three to its left. *)
Definition positional (ds : string) (decpt : Z) : string :=
  let len := Z.of_nat (String.length ds) in
  if (decpt <=? - 4)%Z || (16 <? decpt)%Z then
    let mantissa :=
      match ds with
      | String c EmptyString => ds
      | String c r => String c (String "." r)
      | EmptyString => ds
      end in
    let x := (decpt - 1)%Z in
    let xs := digits_of (Z.abs x) in
    mantissa ++ "e" ++ (if (x <? 0)%Z then "-" else "+")
    ++ (if (String.length xs <? 2)%nat then "0" else "") ++ xs
  else if (decpt <=? 0)%Z then "0." ++ zeros (Z.to_nat (- decpt)) ++ ds
  else if (len <=? decpt)%Z then ds ++ zeros (Z.to_nat (decpt - len)) ++ ".0"
  else
    substring 0 (Z.to_nat decpt) ds ++ "."
    ++ substring (Z.to_nat decpt) (Z.to_nat (len - decpt)) ds.

(** What [json.dump] writes for a [float]. *)
Definition float_repr (x : float) : string :=
  match x with
  | nan => "NaN"
  | inf false => "Infinity"
  | inf true => "-Infinity"
  | finite negative q e =>
      (if negative then "-" else "")
      ++ (if (q =? 0)%Z then "0.0"
          else
            let (c, s) := shortest q e in
            let ds := digits_of c in
            positional (without_trailing_zeros ds)
              (Z.of_nat (String.length ds) + s))
  end.

Fixpoint spaces (n : nat) : string :=
  match n with
  | O => ""
  | S n' => String " " (spaces n')
  end.

(** A line feed and the indentation of a nesting level, four spaces per
    level. *)
Definition newline_indent (level : nat) : string :=
  String LF (spaces (4 * level)).

(** [json.dumps(j, indent=4)]. *)
Fixpoint dumps_at (level : nat) (j : json) : string :=
  match j with
  | JNull => "null"
  | JBool true => "true"
  | JBool false => "false"
  | JInt z => NilZero.string_of_int (Z.to_int z)
  | JFloat literal => float_repr (float_of literal)
  | JString s => quoted s
  | JArray [] => "[]"
  | JArray (x :: xs) =>
      "[" ++ newline_indent (S level) ++ dumps_at (S level) x
      ++ (fix rest (l : list json) : string :=
            match l with
            | [] => ""
            | y :: l' =>
                "," ++ newline_indent (S level) ++ dumps_at (S level) y
                ++ rest l'
            end) xs
      ++ newline_indent level ++ "]"
  | JObject [] => "{}"
  | JObject ((k, x) :: xs) =>
      "{" ++ newline_indent (S level) ++ quoted k ++ ": "
      ++ dumps_at (S level) x
      ++ (fix rest (l : list (string * json)) : string :=
            match l with
            | [] => ""
            | (k', y) :: l' =>
                "," ++ newline_indent (S level) ++ quoted k' ++ ": "
                ++ dumps_at (S level) y ++ rest l'
            end) xs
      ++ newline_indent level ++ "}"
  end.

Definition dumps (j : json) : string := dumps_at 0 j.

End Json.

(** ** The text layers that run

    A text stream takes the bytes of its file in pieces, as its reads ask
    for them, and decodes each piece when it has it: [Text.lines] is what
    [f.readline()] can take of a file that cannot be read whole, and
    [Text.whole] what [f.read()] makes of the whole content.  Both turn
    [\r\n] and [\r] into [\n], as a stream opened with the default
    [newline=None] does. *)

Module Text.

Fixpoint universal_newlines (s : string) : string :=
  match s with
  | EmptyString => EmptyString
  | String c r =>
      if Ascii.eqb c CR then
        String LF
          match r with
          | String c' r' =>
              if Ascii.eqb c' LF then universal_newlines r'
              else universal_newlines r
          | EmptyString => EmptyString
          end
      else String c (universal_newlines r)
  end.

(** [s] without a carriage return at its end: before the end of the file
    the stream keeps it back, to see whether a line feed follows. *)
Fixpoint hold_back (s : string) : string :=
  match s with
  | EmptyString => EmptyString
  | String c EmptyString => if Ascii.eqb c CR then EmptyString else s
  | String c r => String c (hold_back r)
  end.

(** An incremental decoder.  [pending bytes] is the number of bytes at
    the end of [bytes] that start a character and do not complete it, or
    [None] when [bytes] cannot be the start of a text; [decode] is the
    text of bytes that hold whole characters only. *)
Record codec : Type := {
  pending : list byte -> option nat;
  decode : list byte -> string
}.

(** [l] in pieces of [n] bytes. *)
Fixpoint pieces (fuel n : nat) (l : list byte) : list (list byte) :=
  match fuel, l with
  | S fuel', _ :: _ => firstn n l :: pieces fuel' n (skipn n l)
  | _, _ => []
  end.

(** [f.read()] on the whole content. *)
Definition whole (c : codec) (data : list byte) : result string :=
  match pending c data with
  | Some O => Ok (universal_newlines (decode c data))
  | _ => Raise UnicodeDecodeError
  end.

(** The bytes of the leading pieces that decode, and whether all pieces
    do. *)
Fixpoint decodable (c : codec) (seen : list byte) (chunks : list (list byte))
  : list byte * bool :=
  match chunks with
  | [] => (seen, true)
  | chunk :: rest =>
      match pending c (seen ++ chunk) with
      | Some _ => decodable c (seen ++ chunk) rest
      | None => (seen, false)
      end
  end.

(** The line reads of a stream whose binary reads return [chunks] and
    then end, or raise [failure]: the text delivered before the stream
    raises, and what it raises.  A piece that does not decode raises when
    it is taken; bytes left pending at the end of the file raise at the
    read that finds the end. *)
Definition lines (c : codec) (reads : list (list byte) * option exn)
  : string * exn :=
  let (chunks, failure) := reads in
  let (bytes, all) := decodable c [] chunks in
  let held := match pending c bytes with Some p => p | None => O end in
  (universal_newlines
     (hold_back (decode c (firstn (List.length bytes - held) bytes))),
   if all then match failure with Some e => e | None => UnicodeDecodeError end
   else UnicodeDecodeError).

End Text.

(** A stream opened with [encoding='utf-8'] reads its file in pieces of
    8192 bytes. *)

Module Utf8.

Definition between (lo hi n : N) : bool := ((lo <=? n) && (n <=? hi))%N.

Definition continuation : N -> bool := between 128 191.

(** The second byte of a character of three or four bytes that starts
    with [a] (Unicode, table 3-7). *)
Definition second (a b : N) : bool :=
  if (a =? 224)%N then between 160 191 b
  else if (a =? 237)%N then between 128 159 b
  else if (a =? 240)%N then between 144 191 b
  else if (a =? 244)%N then between 128 143 b
  else continuation b.

(** The bytes left pending at the end of well-formed UTF-8.  At the end
    of its input the decoder keeps the two bytes of a surrogate, [ED]
    and a byte from [A0] on, and refuses them when the third comes. *)
Fixpoint pending (l : list N) : option nat :=
  match l with
  | [] => Some 0
  | a :: r =>
      if (a <? 128)%N then pending r
      else if between 194 223 a then
        match r with
        | [] => Some 1
        | b :: r2 => if continuation b then pending r2 else None
        end
      else if between 224 239 a then
        match r with
        | [] => Some 1
        | [b] =>
            if second a b || (a =? 237)%N && continuation b then Some 2
            else None
        | b :: c :: r3 =>
            if second a b && continuation c then pending r3 else None
        end
      else if between 240 244 a then
        match r with
        | [] => Some 1
        | [b] => if second a b then Some 2 else None
        | [b; c] => if second a b && continuation c then Some 3 else None
        | b :: c :: d :: r4 =>
            if second a b && continuation c && continuation d
            then pending r4 else None
        end
      else None
  end.

Definition codec : Text.codec :=
  {| Text.pending := fun bytes => pending (map Byte.to_N bytes);
     Text.decode := string_of_list_byte |}.

Definition chunk_size : nat := 8192.

(** The reads of the binary file under the stream. *)
Definition reads (raw : list byte) : list (list byte) * option exn :=
  (Text.pieces (List.length raw) chunk_size raw, None).

Definition text (raw : list byte) : result string := Text.whole codec raw.

Definition lines (raw : list byte) : string * exn :=
  Text.lines codec (reads raw).

End Utf8.

(** ISO 8859-1, the encoding of a locale such as [en_US.ISO-8859-1]:
    every byte is the character of that code point. *)

Module Latin1.

Definition decode (bytes : list byte) : string :=
  concat "" (map (fun b => Json.utf8_encode (Byte.to_N b)) bytes).

Definition codec : Text.codec :=
  {| Text.pending := fun _ => Some 0; Text.decode := decode |}.

End Latin1.

(** [gzip.open(path, 'rt')] puts a text stream, with the encoding of the
    locale, over a [GzipFile].  [Gzip.reads] follows the reads of that
    file (RFC 1952 and the module [gzip]): each takes up to 8192 bytes of
    the compressed file and returns what they decompress to; the CRC-32
    and the length of a member are checked by the read that comes after
    its last data; zero bytes after a member are skipped, and anything
    else there must be another member.  The data of a member is
    decompressed as zlib does it, block by block: stored blocks and blocks
    with fixed and with dynamic Huffman codes. *)

Module Gzip.

Definition crc_shift (c : N) : N :=
  if N.testbit c 0 then N.lxor (N.shiftr c 1) 3988292384 else N.shiftr c 1.

Definition crc_byte (c : N) (b : byte) : N :=
  Nat.iter 8 crc_shift (N.lxor c (Byte.to_N b)).

(** The CRC-32 register after [data], from the register [c]. *)
Definition crc_update (c : N) (data : list byte) : N := fold_left crc_byte data c.

Definition crc_start : N := 4294967295.

Definition crc32 (data : list byte) : N :=
  N.lxor (crc_update crc_start data) 4294967295.

(** A little-endian number. *)
Definition le (bs : list byte) : N :=
  fold_right (fun b acc => (Byte.to_N b + 256 * acc)%N) 0%N bs.

Definition flag (flg : byte) (bit : N) : bool := N.testbit (Byte.to_N flg) bit.

(** [bs] after a zero-terminated field; the end of the file ends the
    field as well. *)
Fixpoint after_zero (bs : list byte) : list byte :=
  match bs with
  | [] => []
  | b :: r => if Byte.eqb b x00 then r else after_zero r
  end.

(** [_read_exact]: [bs] after [n] bytes. *)
Definition after_exactly (n : nat) (bs : list byte) : result (list byte) :=
  if (n <=? List.length bs)%nat then Ok (skipn n bs) else Raise EOFError.

(** [_read_gzip_header]: the header of a member, with the optional
    fields FEXTRA, FNAME, FCOMMENT and FHCRC.  [None] is the end of the
    file where a member could start. *)
Definition after_header (bs : list byte) : result (option (list byte)) :=
  match bs with
  | [] => Ok None
  | _ =>
      if negb (bytes_eqb (firstn 2 bs) gzip_magic) then Raise BadGzipFile
      else
        match skipn 2 bs with
        | cm :: flg :: _ :: _ :: _ :: _ :: _ :: _ :: r =>
            if negb (Byte.eqb cm x08) then Raise BadGzipFile
            else
              let extra :=
                if flag flg 2 then
                  match r with
                  | l0 :: l1 :: r' => after_exactly (N.to_nat (le [l0; l1])) r'
                  | _ => Raise EOFError
                  end
                else Ok r in
              match extra with
              | Raise e => Raise e
              | Ok r1 =>
                  let r2 := if flag flg 3 then after_zero r1 else r1 in
                  let r3 := if flag flg 4 then after_zero r2 else r2 in
                  if flag flg 1 then
                    match after_exactly 2 r3 with
                    | Ok r4 => Ok (Some r4)
                    | Raise e => Raise e
                    end
                  else Ok (Some r3)
              end
        | _ => Raise EOFError
        end
  end.

(** *** DEFLATE

    The decompressor follows zlib's [inflate] (RFC 1951), which reads its
    input bit by bit and can stop anywhere in it: it takes a byte of the
    input only when it needs a bit of it, and stops when the input is
    used up or the output is full, to go on from there at the next
    call. *)

Definition bits_of (b : byte) : list bool :=
  let n := Byte.to_N b in map (N.testbit n) [0; 1; 2; 3; 4; 5; 6; 7]%N.

(** The number whose bits, lowest first, are [bs]. *)
Fixpoint value (bs : list bool) : N :=
  match bs with
  | [] => 0
  | b :: r => (if b then 1 else 0) + 2 * value r
  end%N.

(** A Huffman code is given by the code lengths of its symbols: by the
    number of codes of each length from 1 to 15 and the symbols in the
    order of their codes.  A code that leaves bit patterns unused is
    refused, but for a single code of one bit and for no code at all. *)
Inductive shape : Type := complete | single | empty.

Record table : Type := {
  counts : list N;
  symbols : list N;
  shape_of : shape
}.

Definition code_lengths : list N := [1; 2; 3; 4; 5; 6; 7; 8; 9; 10; 11; 12; 13; 14; 15]%N.

Definition count_of (lens : list N) (l : N) : N :=
  N.of_nat (List.length (filter (N.eqb l) lens)).

Definition symbols_of (lens : list N) (l : N) : list N :=
  map fst
    (filter (fun p => N.eqb (snd p) l)
       (combine (map N.of_nat (seq 0 (List.length lens))) lens)).

(** What is left of the code space after the codes of each length;
    [None] when there are more codes than the lengths allow. *)
Fixpoint unused_codes (cs : list N) (free : Z) : option Z :=
  match cs with
  | [] => Some free
  | c :: r =>
      let free' := (2 * free - Z.of_N c)%Z in
      if (free' <? 0)%Z then None else unused_codes r free'
  end.

(** [inflate_table]; [for_lengths] is set for the code that the code
    lengths of a block are written in. *)
Definition table_of (for_lengths : bool) (lens : list N) : option table :=
  let cs := map (count_of lens) code_lengths in
  if forallb (N.eqb 0) cs
  then Some {| counts := cs; symbols := []; shape_of := empty |}
  else
    let t s := {| counts := cs; symbols := flat_map (symbols_of lens) code_lengths;
                  shape_of := s |} in
    match unused_codes cs 1 with
    | None => None
    | Some 0%Z => Some (t complete)
    | Some _ =>
        if for_lengths || negb (forallb (N.eqb 0) (tl cs)) then None
        else Some (t single)
    end.

(** The symbol whose code starts the bits [a], with the length of the
    code.  [None]: the code needs more bits than [a] has;
    [Some (None, _)]: no symbol has that code. *)
Fixpoint symbol_from (cs syms : list N) (code first index : N) (n : nat)
  (one : bool) (a : list bool) : option (option N * nat) :=
  match cs with
  | [] => Some (None, n)
  | c :: cs' =>
      match a with
      | [] => None
      | b :: a' =>
          let code := (code + if b then 1 else 0)%N in
          if (code <? first + c)%N
          then Some (Some (nth (N.to_nat (index + (code - first))) syms 0%N), S n)
          else if one then Some (None, S n)
          else symbol_from cs' syms (2 * code) (2 * (first + c)) (index + c)
                 (S n) one a'
      end
  end.

Definition symbol (t : table) (a : list bool) : option (option N * nat) :=
  match shape_of t with
  | empty => match a with [] => None | _ :: _ => Some (None, 1%nat) end
  | single => symbol_from (counts t) (symbols t) 0 0 0 0 true a
  | complete => symbol_from (counts t) (symbols t) 0 0 0 0 false a
  end.

(** A number of [n] bits. *)
Definition field (n : nat) (a : list bool) : option N :=
  if (n <=? List.length a)%nat then Some (value (firstn n a)) else None.

(** The codes of a block with fixed codes. *)
Definition fixed_lengths : list N :=
  (repeat 8%N 144 ++ repeat 9%N 112 ++ repeat 7%N 24 ++ repeat 8%N 8)%list.

Definition no_table : table := {| counts := []; symbols := []; shape_of := empty |}.

Definition fixed_lencode : table :=
  match table_of false fixed_lengths with Some t => t | None => no_table end.

Definition fixed_distcode : table :=
  match table_of false (repeat 5%N 32) with Some t => t | None => no_table end.

(** Lengths and distances: the base and the number of extra bits of each
    symbol. *)
Definition length_base : list nat :=
  [3; 4; 5; 6; 7; 8; 9; 10; 11; 13; 15; 17; 19; 23; 27; 31; 35; 43; 51; 59;
   67; 83; 99; 115; 131; 163; 195; 227; 258]%nat.

Definition length_extra : list nat :=
  [0; 0; 0; 0; 0; 0; 0; 0; 1; 1; 1; 1; 2; 2; 2; 2; 3; 3; 3; 3;
   4; 4; 4; 4; 5; 5; 5; 5; 0]%nat.

Definition dist_base : list nat :=
  [1; 2; 3; 4; 5; 7; 9; 13; 17; 25; 33; 49; 65; 97; 129; 193; 257; 385; 513;
   769; 1025; 1537; 2049; 3073; 4097; 6145; 8193; 12289; 16385; 24577]%nat.

Definition dist_extra : list nat :=
  [0; 0; 0; 0; 1; 1; 2; 2; 3; 3; 4; 4; 5; 5; 6; 6; 7; 7; 8; 8;
   9; 9; 10; 10; 11; 11; 12; 12; 13; 13]%nat.

(** The order in which the lengths of the code-length code are
    written. *)
Definition order : list nat :=
  [16; 17; 18; 0; 8; 7; 9; 6; 10; 5; 11; 4; 12; 3; 13; 2; 14; 1; 15]%nat.

Definition in_order (got : list N) : list N :=
  map (fun s =>
         match find (fun p => Nat.eqb (fst p) s) (combine order got) with
         | Some p => snd p
         | None => 0%N
         end)
    (seq 0 19).

(** The states of [inflate]. *)
Inductive mode : Type :=
| TYPE
| STORED
| COPY (len : nat)
| TABLE
| LENLENS (nlen ndist ncode : nat) (got : list N)
| CODELENS (nlen ndist : nat) (lengths_code : table) (got : list N)
| LEN
| LENEXT (sym : nat)
| DIST (len : nat)
| DISTEXT (len sym : nat)
| MATCH (len offset : nat)
| LIT (b : byte)
| DONE.

(** The decompressor between two calls: the bits taken from the input
    and not used yet, the codes of the block at hand, and the last 32768
    bytes of its output, the latest first. *)
Record inflater : Type := {
  at_mode : mode;
  final : bool;       (* the block at hand is the last *)
  hold : list bool;
  lencode : table;
  distcode : table;
  window : list byte
}.

Definition fresh : inflater :=
  {| at_mode := TYPE; final := false; hold := [];
     lencode := no_table; distcode := no_table; window := [] |}.

Definition at_end (st : inflater) : bool :=
  match at_mode st with DONE => true | _ => false end.

Definition to (m : mode) (st : inflater) : inflater :=
  {| at_mode := m; final := final st; hold := hold st;
     lencode := lencode st; distcode := distcode st; window := window st |}.

Definition holding (h : list bool) (st : inflater) : inflater :=
  {| at_mode := at_mode st; final := final st; hold := h;
     lencode := lencode st; distcode := distcode st; window := window st |}.

Definition window_size : nat := 32768.

Definition remembering (out : list byte) (st : inflater) : inflater :=
  {| at_mode := at_mode st; final := final st; hold := hold st;
     lencode := lencode st; distcode := distcode st;
     window := firstn window_size (out ++ window st) |}.

Inductive outcome : Type :=
| Go (st : inflater) (buf : list byte) (room : nat) (out : list byte)
| Stop (st : inflater) (buf : list byte) (out : list byte)
| Fail.

(** The bits that one step can look at: no step needs more than the
    held bits and six bytes of the input. *)
Definition ahead (h : list bool) (buf : list byte) : list bool :=
  h ++ flat_map bits_of (firstn 6 buf).

(** After [n] bits are used: the bytes of the input that had to be
    taken for them are gone, and the bits of theirs that are left are
    held. *)
Definition fed (n : nat) (h : list bool) (buf : list byte) : list bool * list byte :=
  let k := ((n - List.length h + 7) / 8)%nat in
  (skipn n (h ++ flat_map bits_of (firstn k buf)), skipn k buf).

Definition go (n : nat) (h : list bool) (st : inflater) (buf : list byte)
  (room : nat) (out : list byte) : outcome :=
  let (h', buf') := fed n h buf in Go (holding h' st) buf' room out.

(** The input is used up before the bits that are needed have come. *)
Definition starve (h : list bool) (st : inflater) (buf : list byte)
  (out : list byte) : outcome :=
  Stop (holding (h ++ flat_map bits_of buf) st) [] out.

Definition byte_aligned (h : list bool) : list bool :=
  skipn (List.length h mod 8) h.

Fixpoint copy (len : nat) (buf : list byte) (room : nat) (out : list byte)
  : nat * list byte * nat * list byte :=
  match len, buf, room with
  | S len', b :: buf', S room' => copy len' buf' room' (b :: out)
  | _, _, _ => (len, buf, room, out)
  end.

(** The byte [d] bytes back in the output, whose latest bytes are [out]
    and, before them, [win]. *)
Fixpoint back (d : nat) (out win : list byte) : option byte :=
  match out with
  | b :: out' => match d with O => Some b | S d' => back d' out' win end
  | [] => nth_error win d
  end.

Fixpoint copy_back (len d room : nat) (out win : list byte)
  : nat * nat * list byte :=
  match len, room with
  | S len', S room' =>
      match back d out win with
      | Some b => copy_back len' d room' (b :: out) win
      | None => (len, room, out)
      end
  | _, _ => (len, room, out)
  end.

Definition byte_of (n : N) : byte :=
  match Byte.of_N (n mod 256) with
  | Some b => b
  | None => x00
  end.

(** One step of [inflate]. *)
Definition step (st : inflater) (buf : list byte) (room : nat)
  (out : list byte) : outcome :=
  let h := hold st in
  let a := ahead h buf in
  match at_mode st with
  | TYPE =>
      if final st then Stop (holding (byte_aligned h) (to DONE st)) buf out
      else
        match field 3 a with
        | None => starve h st buf out
        | Some v =>
            let last := N.testbit v 0 in
            let next m lc dc :=
              go 3 h {| at_mode := m; final := last; hold := h;
                        lencode := lc; distcode := dc; window := window st |}
                buf room out in
            match N.shiftr v 1 with
            | 0%N => next STORED (lencode st) (distcode st)
            | 1%N => next LEN fixed_lencode fixed_distcode
            | 2%N => next TABLE (lencode st) (distcode st)
            | _ => Fail
            end
        end
  | STORED =>
      let h0 := byte_aligned h in
      match field 32 (ahead h0 buf) with
      | None => starve h0 st buf out
      | Some v =>
          let len := (v mod 65536)%N in
          if negb (v / 65536 =? N.lxor len 65535)%N then Fail
          else go 32 h0 (to (COPY (N.to_nat len)) st) buf room out
      end
  | COPY O => Go (to TYPE st) buf room out
  | COPY len =>
      match buf, room with
      | [], _ | _, O => Stop st buf out
      | _, _ =>
          let '(len', buf', room', out') := copy len buf room out in
          Go (to (COPY len') st) buf' room' out'
      end
  | TABLE =>
      match field 14 a with
      | None => starve h st buf out
      | Some v =>
          let nlen := (257 + N.to_nat (v mod 32))%nat in
          let ndist := (1 + N.to_nat ((v / 32) mod 32))%nat in
          let ncode := (4 + N.to_nat (v / 1024))%nat in
          if ((286 <? nlen) || (30 <? ndist))%nat then Fail
          else go 14 h (to (LENLENS nlen ndist ncode []) st) buf room out
      end
  | LENLENS nlen ndist ncode got =>
      if (List.length got <? ncode)%nat then
        match field 3 a with
        | None => starve h st buf out
        | Some v => go 3 h (to (LENLENS nlen ndist ncode (got ++ [v])) st) buf room out
        end
      else
        match table_of true (in_order got) with
        | None => Fail
        | Some t => Go (to (CODELENS nlen ndist t []) st) buf room out
        end
  | CODELENS nlen ndist t got =>
      let have := List.length got in
      if (have <? nlen + ndist)%nat then
        match shape_of t with
        | empty =>
            match field 1 a with
            | None => starve h st buf out
            | Some _ => go 1 h (to (CODELENS nlen ndist t (0%N :: got)) st) buf room out
            end
        | _ =>
            match symbol t a with
            | None => starve h st buf out
            | Some (None, _) => Fail
            | Some (Some sym, nb) =>
                if (sym <? 16)%N
                then go nb h (to (CODELENS nlen ndist t (sym :: got)) st) buf room out
                else
                  let extra := if (sym =? 16)%N then 2%nat
                               else if (sym =? 17)%N then 3%nat else 7%nat in
                  match field extra (skipn nb a) with
                  | None => starve h st buf out
                  | Some v =>
                      match (sym =? 16)%N, got with
                      | true, [] => Fail
                      | _, _ =>
                          let len := if (sym =? 16)%N then hd 0%N got else 0%N in
                          let times := ((if (sym =? 18)%N then 11 else 3)
                                        + N.to_nat v)%nat in
                          if (nlen + ndist <? have + times)%nat then Fail
                          else go (nb + extra) h
                                 (to (CODELENS nlen ndist t (repeat len times ++ got)) st)
                                 buf room out
                      end
                  end
            end
        end
      else
        let lens := rev got in
        if (nth 256 lens 0 =? 0)%N then Fail
        else
          match table_of false (firstn nlen lens), table_of false (skipn nlen lens) with
          | Some lc, Some dc =>
              Go {| at_mode := LEN; final := final st; hold := h;
                    lencode := lc; distcode := dc; window := window st |}
                buf room out
          | _, _ => Fail
          end
  | LEN =>
      match symbol (lencode st) a with
      | None => starve h st buf out
      | Some (None, _) => Fail
      | Some (Some sym, nb) =>
          if (sym <? 256)%N then go nb h (to (LIT (byte_of sym)) st) buf room out
          else if (sym =? 256)%N then go nb h (to TYPE st) buf room out
          else if (286 <=? sym)%N then Fail
          else go nb h (to (LENEXT (N.to_nat sym - 257)) st) buf room out
      end
  | LENEXT sym =>
      let extra := nth sym length_extra 0%nat in
      match field extra a with
      | None => starve h st buf out
      | Some v =>
          go extra h (to (DIST (nth sym length_base 0 + N.to_nat v)%nat) st)
            buf room out
      end
  | DIST len =>
      match symbol (distcode st) a with
      | None => starve h st buf out
      | Some (None, _) => Fail
      | Some (Some sym, nb) =>
          if (30 <=? sym)%N then Fail
          else go nb h (to (DISTEXT len (N.to_nat sym)) st) buf room out
      end
  | DISTEXT len sym =>
      let extra := nth sym dist_extra 0%nat in
      match field extra a with
      | None => starve h st buf out
      | Some v =>
          go extra h (to (MATCH len (nth sym dist_base 0 + N.to_nat v)%nat) st)
            buf room out
      end
  | MATCH len offset =>
      match room with
      | O => Stop st buf out
      | S _ =>
          match back (offset - 1) out (window st) with
          | None => Fail
          | Some _ =>
              let '(len', room', out') :=
                copy_back len (offset - 1) room out (window st) in
              Go (to (match len' with O => LEN | S _ => MATCH len' offset end) st)
                buf room' out'
          end
      end
  | LIT b =>
      match room with
      | O => Stop st buf out
      | S room' => Go (to LEN st) buf room' (b :: out)
      end
  | DONE => Stop st buf out
  end.

(** The steps of one call, at most [fuel] of them. *)
Fixpoint steps (fuel : nat) (st : inflater) (buf : list byte) (room : nat)
  (out : list byte) : option (result (list byte * inflater * list byte)) :=
  match fuel with
  | O => None
  | S fuel' =>
      match step st buf room out with
      | Fail => Some (Raise ZlibError)
      | Stop st' buf' out' => Some (Ok (out', remembering out' st', buf'))
      | Go st' buf' room' out' => steps fuel' st' buf' room' out'
      end
  end.

(** A step uses a bit of the input or writes a byte of the output, but
    for at most two in a row that do neither: [rank] counts those that a
    state can still take. *)
Definition rank (m : mode) : nat :=
  match m with
  | LENLENS _ _ _ _ | DISTEXT _ _ => 2
  | COPY _ | CODELENS _ _ _ _ | LENEXT _ | MATCH _ _ => 1
  | _ => 0
  end.

Definition enough (st : inflater) (buf : list byte) (room : nat) : nat :=
  S (3 * (8 * List.length buf + List.length (hold st) + room) + rank (at_mode st)).

(** One call of [decompress(buf, max_length)]: the output, in reverse,
    the decompressor after it, and what of [buf] is left. *)
Definition inflate (buf : list byte) (room : nat) (st : inflater)
  (out : list byte) : result (list byte * inflater * list byte) :=
  match steps (enough st buf room) st buf room out with
  | Some r => r
  | None => Raise ZlibError
  end.

(** The [GzipFile] between two reads: what of the file is left, the
    CRC-32 register and the length of the data of the member at hand, and
    the decompressor; [member_start] when a member header comes next. *)
Record reader : Type := {
  left : list byte;
  crc : N;
  size : N;
  member_start : bool;
  state : inflater
}.

Fixpoint drop_zeros (bs : list byte) : list byte :=
  match bs with
  | b :: r => if Byte.eqb b x00 then drop_zeros r else bs
  | [] => []
  end.

(** [_read_eof]: the trailer of the member that has ended. *)
Definition after_trailer (r : reader) : result (list byte) :=
  match left r with
  | c0 :: c1 :: c2 :: c3 :: s0 :: s1 :: s2 :: s3 :: rest =>
      if negb (le [c0; c1; c2; c3] =? N.lxor (crc r) 4294967295)%N
      then Raise BadGzipFile
      else if negb (le [s0; s1; s2; s3] =? size r mod 4294967296)%N
      then Raise BadGzipFile
      else Ok (drop_zeros rest)
  | _ => Raise EOFError
  end.

Definition buffer_size : nat := 8192.

(** One [read(8192)] of the [GzipFile]: the data it returns, [None] at
    the end of the file, and the reader after it. *)
Fixpoint read (fuel : nat) (r : reader) : result (option (list byte) * reader) :=
  match fuel with
  | O => Raise EOFError
  | S fuel' =>
      let ended :=
        if at_end (state r) then
          match after_trailer r with
          | Ok rest =>
              Ok {| left := rest; crc := crc r; size := size r;
                    member_start := true; state := fresh |}
          | Raise e => Raise e
          end
        else Ok r in
      match ended with
      | Raise e => Raise e
      | Ok r1 =>
          let started :=
            if member_start r1 then
              match after_header (left r1) with
              | Ok (Some body) =>
                  Ok (Some {| left := body; crc := crc_start; size := 0;
                              member_start := false; state := fresh |})
              | Ok None => Ok None
              | Raise e => Raise e
              end
            else Ok (Some r1) in
          match started with
          | Raise e => Raise e
          | Ok None => Ok (None, r1)
          | Ok (Some r2) =>
              let buf := firstn buffer_size (left r2) in
              match inflate buf buffer_size (state r2) [] with
              | Raise e => Raise e
              | Ok (out, st, unused) =>
                  let data := rev out in
                  let r3 :=
                    {| left := (unused ++ skipn buffer_size (left r2))%list;
                       crc := crc_update (crc r2) data;
                       size := (size r2 + N.of_nat (List.length data))%N;
                       member_start := false; state := st |} in
                  match data, buf with
                  | _ :: _, _ => Ok (Some data, r3)
                  | [], [] => Raise EOFError
                  | [], _ :: _ => read fuel' r3
                  end
              end
          end
      end
  end.

(** The reads of the [GzipFile] one after the other, until the end of
    the file or an exception. *)
Fixpoint reads_from (fuel : nat) (r : reader) : list (list byte) * option exn :=
  match fuel with
  | O => ([], Some EOFError)
  | S fuel' =>
      match read (S (S (List.length (left r)))) r with
      | Raise e => ([], Some e)
      | Ok (None, _) => ([], None)
      | Ok (Some data, r') =>
          let (more, failure) := reads_from fuel' r' in (data :: more, failure)
      end
  end.

Definition reads (raw : list byte) : list (list byte) * option exn :=
  reads_from (S (List.length raw))
    {| left := raw; crc := crc_start; size := 0;
       member_start := true; state := fresh |}.

(** [f.read()] of the text stream: the whole file is decompressed, then
    decoded. *)
Definition text_in (c : Text.codec) (raw : list byte) : result string :=
  match reads raw with
  | (chunks, None) => Text.whole c (List.concat chunks)
  | (_, Some e) => Raise e
  end.

Definition lines_in (c : Text.codec) (raw : list byte) : string * exn :=
  Text.lines c (reads raw).

(** The stream under a locale whose encoding is UTF-8. *)
Definition text : list byte -> result string := text_in Utf8.codec.
Definition lines : list byte -> string * exn := lines_in Utf8.codec.

(** [n] as [k] little-endian bytes. *)
Fixpoint le_bytes (k : nat) (n : N) : list byte :=
  match k with
  | O => []
  | S k' => byte_of n :: le_bytes k' (n / 256)
  end.

(** The file that [gzip.compress(data, compresslevel=0, mtime=0)] writes
    for at most 65535 bytes of data: a header without optional fields,
    one final stored block, the CRC-32 and the length. *)
Definition compress0 (data : list byte) : list byte :=
  let len := N.of_nat (List.length data) in
  ([x1f; x8b; x08; x00; x00; x00; x00; x00; x04; x03]
   ++ [x01] ++ le_bytes 2 len ++ le_bytes 2 (N.lxor len 65535)
   ++ data
   ++ le_bytes 4 (crc32 data) ++ le_bytes 4 len)%list.

End Gzip.

(** ** The lines of a text, the files of a tree *)

Definition line1 (t : string) : string := fst (split_line t).
Definition after_line1 (t : string) : string := snd (split_line t).
Definition line2 (t : string) : string := line1 (after_line1 t).
Definition after_line2 (t : string) : string := after_line1 (after_line1 t).
Definition line3 (t : string) : string := line1 (after_line2 t).
Definition after_line3 (t : string) : string := after_line1 (after_line2 t).

(** [s] holds no path separator, as a name that [os.listdir] returns. *)
Fixpoint no_separator_b (s : string) : bool :=
  match s with
  | EmptyString => true
  | String c r => negb (Ascii.eqb c "/") && no_separator_b r
  end.

Definition no_separator (s : string) : Prop := no_separator_b s = true.

(** A stream that yields [t], with [rest] still unread and the
    exceptions [es] caught so far. *)
Definition at_position (t rest : string) (es : list exn) : stream :=
  {| text := t; unread := rest; caught := es; breaks := None |}.

(** A stream that delivers [d] and then breaks, with [rest] of [d] still
    unread and the exceptions [es] caught so far. *)
Definition at_break (d rest : string) (es : list exn) (e_line e_read : exn)
  : stream :=
  {| text := d; unread := rest; caught := es; breaks := Some (e_line, e_read) |}.

(** The text holds its first two lines whole, each with its line feed. *)
Definition header_delivered (d : string) : bool :=
  negb (single_line (line1 d)) && negb (single_line (line2 d)).

(** The [except] clause was entered while the stream was open. *)
Definition fell_back (f : stream) : Prop := In JSONDecodeError (caught f).

(** The record [process_dir] returns. *)
Definition record (name : string) (files dirs : list json) : json :=
  JObject [ ("name", JString name); ("files", JArray files); ("dirs", JArray dirs) ].

Definition is_dir (n : node) : bool :=
  match n with
  | Dir _ => true
  | _ => false
  end.

(** A child that the loop reads as a workspace file: a regular file whose
    name ends with the extension. *)
Definition is_workspace_file (child : string * node) : bool :=
  match snd child with
  | File _ => endswith (fst child) extension
  | _ => false
  end.

(** The regular files below [n] whose path ends with the extension, in
    the order of the walk, each with its path, its name and its content;
    [n] is the tree found at [path]. *)
Fixpoint workspace_files (path : string) (n : node)
  : list (string * string * list byte) :=
  match n with
  | Dir children =>
      flat_map
        (fun '(p, child) =>
           let full_path := join path p in
           match child with
           | Dir _ => workspace_files full_path child
           | File raw =>
               if endswith full_path extension then [(full_path, p, raw)] else []
           | Other => []
           end)
        children
  | _ => []
  end.

(** The calls a walk that visits every directory and every workspace file
    of the tree once makes, in its order. *)
Fixpoint full_walk (path : string) (n : node) : list event :=
  match n with
  | Dir children =>
      Listdir path ::
      flat_map
        (fun '(p, child) =>
           let full_path := join path p in
           match child with
           | Dir _ => full_walk full_path child
           | File raw =>
               if endswith full_path extension then [ReadHeader full_path] else []
           | Other => []
           end)
        children
  | _ => [Listdir path]
  end.

(** What one child of the directory at [path] adds to [workspace_files]
    and to [full_walk]. *)
Definition child_files (path : string) (pc : string * node)
  : list (string * string * list byte) :=
  let '(p, child) := pc in
  let full_path := join path p in
  match child with
  | Dir _ => workspace_files full_path child
  | File raw =>
      if endswith full_path extension then [(full_path, p, raw)] else []
  | Other => []
  end.

Definition child_walk (path : string) (pc : string * node) : list event :=
  let '(p, child) := pc in
  let full_path := join path p in
  match child with
  | Dir _ => full_walk full_path child
  | File raw =>
      if endswith full_path extension then [ReadHeader full_path] else []
  | Other => []
  end.

(** The number of directories of a tree, its root included. *)
Fixpoint count_dirs (n : node) : nat :=
  match n with
  | Dir children =>
      S (list_sum (map (fun '(_, child) => count_dirs child) children))
  | _ => 0
  end.

Definition is_listdir (e : event) : bool :=
  match e with
  | Listdir _ => true
  | ReadHeader _ => false
  end.

Definition is_read (e : event) : bool := negb (is_listdir e).


(** The step of the walk on one workspace file, given as [workspace_files]
    lists it. *)
Definition index_entry (index : string -> string -> list byte -> result json)
  (f : string * string * list byte) : result json :=
  let '(full_path, p, raw) := f in index full_path p raw.

Definition indexed (index : string -> string -> list byte -> result json)
  (f : string * string * list byte) : Prop :=
  exists metadata, index_entry index f = Ok metadata.

(** [e] is what the first file of [fs] that cannot be indexed raises. *)
Definition first_failure (index : string -> string -> list byte -> result json)
  (e : exn) (fs : list (string * string * list byte)) : Prop :=
  exists before f after,
    fs = (before ++ f :: after)%list
    /\ Forall (indexed index) before
    /\ index_entry index f = Raise e.

(** The calls [t] end with the read of the first file of [fs] that cannot
    be indexed, which raises [e]; the reads before it are those of the
    files before it. *)
Definition stopped_at (index : string -> string -> list byte -> result json)
  (e : exn) (fs : list (string * string * list byte)) (t : list event) : Prop :=
  exists before f after t0,
    fs = (before ++ f :: after)%list
    /\ Forall (indexed index) before
    /\ index_entry index f = Raise e
    /\ t = (t0 ++ [ReadHeader (fst (fst f))])%list
    /\ filter is_read t0 = map (fun g => ReadHeader (fst (fst g))) before.

(** ** What the walk is compared with *)

(** [s] neither starts nor ends with a white-space character. *)
Definition stripped (s : string) : Prop :=
  space_prefix wide_spaces (list_ascii_of_string s) = None
  /\ space_prefix (map (@rev ascii) wide_spaces)
       (rev (list_ascii_of_string s)) = None.


(** The text made of the given code points. *)
Definition text_of (cps : list N) : string :=
  fold_right (fun cp s => Json.utf8_encode cp ++ s) "" cps.




(** The first two lines of a file as the reads of the [try] find them:
    the lines of its text, or the exception of a stream that breaks before
    it has delivered them. *)
Definition header_lines (utf8_text gzip_text : list byte -> result string)
  (utf8_lines gzip_lines : list byte -> string * exn) (raw : list byte)
  : result (string * string) :=
  match open_func utf8_text gzip_text raw with
  | Ok t => Ok (line1 t, line2 t)
  | Raise _ =>
      let (delivered, e_line) := open_lines utf8_lines gzip_lines raw in
      if header_delivered delivered
      then Ok (line1 delivered, line2 delivered)
      else Raise e_line
  end.

(** The names of a directory tree as the document shows them: the name
    of a directory, the names of its workspace files, and the same for its
    subdirectories. *)
Inductive outline : Type :=
| Outline (name : string) (files : list string) (dirs : list outline).

(** The string under ["name"] of an entry. *)
Definition entry_name (j : json) : option string :=
  match get "name" j with
  | Some (JString p) => Some p
  | _ => None
  end.

Fixpoint all_some {A : Type} (l : list (option A)) : option (list A) :=
  match l with
  | [] => Some []
  | Some a :: l' =>
      match all_some l' with
      | Some r => Some (a :: r)
      | None => None
      end
  | None :: _ => None
  end.

(** The outline of a record: defined when the value is an object with the
    keys ["name"], ["files"] and ["dirs"], in this order, holding a
    string, a list of entries that have a name, and a list of records. *)
Fixpoint outline_of_record (j : json) : option outline :=
  match j with
  | JObject [ (k1, JString name); (k2, JArray files); (k3, JArray dirs) ] =>
      if String.eqb k1 "name" && String.eqb k2 "files" && String.eqb k3 "dirs"
      then
        match all_some (map entry_name files),
              all_some (map outline_of_record dirs) with
        | Some fs, Some ds => Some (Outline name fs ds)
        | _, _ => None
        end
      else None
  | _ => None
  end.

(** The outline of the tree [n] listed under [name]. *)
Fixpoint outline_of_tree (name : string) (n : node) : outline :=
  match n with
  | Dir children =>
      Outline name
        (map fst (filter is_workspace_file children))
        (flat_map
           (fun '(p, child) =>
              match child with
              | Dir _ => [outline_of_tree p child]
              | _ => []
              end)
           children)
  | _ => Outline name [] []
  end.

(** No name of the tree holds a path separator: the names are those of
    directory listings. *)
Fixpoint well_named (n : node) : bool :=
  match n with
  | Dir children =>
      forallb (fun '(p, child) => no_separator_b p && well_named child) children
  | _ => true
  end.

(** What lines 77 and 78 make of a file: the stripped version and the
    decoded metadata, or the exception of the stream or of [json.loads]. *)
Definition header_decoded (json_loads : string -> result json)
  (header : list byte -> result (string * string)) (raw : list byte)
  : result (string * json) :=
  match header raw with
  | Ok (l1, l2) =>
      match json_loads l2 with
      | Ok metadata => Ok (strip l1, metadata)
      | Raise e => Raise e
      end
  | Raise e => Raise e
  end.

(** Two contents with the same header: the reads of the first two lines
    find the same two lines, or raise the same exception. *)
Definition same_header (header : list byte -> result (string * string))
  (raw raw' : list byte) : Prop :=
  header raw = header raw'.

(** Two trees with the same names and kinds of entries, whose workspace
    files have the same header; the content of any other file is free. *)
Inductive same_index (header : list byte -> result (string * string))
  : node -> node -> Prop :=
| same_dir (cs cs' : list (string * node)) :
    same_children header cs cs' -> same_index header (Dir cs) (Dir cs')
| same_file (raw raw' : list byte) :
    same_index header (File raw) (File raw')
| same_other : same_index header Other Other
with same_children (header : list byte -> result (string * string))
  : list (string * node) -> list (string * node) -> Prop :=
| same_nil : same_children header [] []
| same_cons (p : string) (c c' : node) (cs cs' : list (string * node)) :
    same_index header c c' ->
    (forall raw raw', c = File raw -> c' = File raw' ->
                      endswith p extension = true ->
                      same_header header raw raw') ->
    same_children header cs cs' ->
    same_children header ((p, c) :: cs) ((p, c') :: cs').

Scheme same_index_mutual := Minimality for same_index Sort Prop
  with same_children_mutual := Minimality for same_children Sort Prop.

(** ** The script on the instances that run *)

Module Run.

(** [read_workspace] under a locale whose encoding is ISO 8859-1. *)
Definition read_workspace_latin1 :=
  read_workspace Json.loads Utf8.text (Gzip.text_in Latin1.codec)
    Utf8.lines (Gzip.lines_in Latin1.codec).

Definition read_workspace := read_workspace Json.loads Utf8.text Gzip.text Utf8.lines Gzip.lines.
Definition process_dir := process_dir Json.loads Utf8.text Gzip.text Utf8.lines Gzip.lines.
Definition scan_directory := scan_directory Json.loads Utf8.text Gzip.text Utf8.lines Gzip.lines.
Definition main := main Json.loads Utf8.text Gzip.text Utf8.lines Gzip.lines Json.dumps.
Definition index_file := index_file Json.loads Utf8.text Gzip.text Utf8.lines Gzip.lines.

End Run.

(** ** Files and trees of the scenarios *)

Module Scenario.

(** JSON text is written here with an apostrophe where the file has a
    double quote. *)
Fixpoint quotes (s : string) : string :=
  match s with
  | EmptyString => EmptyString
  | String c r =>
      String (if Ascii.eqb c "'" then ascii_of_nat 34 else c) (quotes r)
  end.

Definition plain (t : string) : list byte := list_byte_of_string t.

Definition gzipped (t : string) : list byte :=
  Gzip.compress0 (list_byte_of_string t).

(** A versioned file: version line, metadata line, payload line. *)
Definition versioned : string :=
  "0.9.0" ++ nl ++ quotes "{'extensions':['grapycal_torch']}" ++ nl ++ "{}".

(** The same header before a payload that is no JSON. *)
Definition versioned_bad_payload : string :=
  "0.9.0" ++ nl ++ quotes "{'extensions':['grapycal_torch']}" ++ nl ++ "{{{".


(** A versioned file whose metadata holds U+00E9, a letter outside
    ASCII. *)
Definition versioned_titled : string :=
  "0.9.0" ++ nl ++ quotes "{'title':'" ++ Json.utf8_encode 233 ++ quotes "'}"
  ++ nl ++ "{}".

(** A header of two lines, then 9000 spaces and a byte that is no UTF-8:
    the byte lies beyond the first 8192 bytes of the file. *)
Definition late_undecodable : list byte :=
  (plain ("0.9.0" ++ nl ++ quotes "{'extensions':['grapycal_torch']}" ++ nl)
   ++ repeat x20 9000 ++ [xff])%list.

(** The gzip file of [t] with a wrong CRC-32. *)
Definition gzipped_bad_crc (t : string) : list byte :=
  let file := gzipped t in
  (firstn (List.length file - 8) file
   ++ [x00; x00; x00; x00] ++ skipn (List.length file - 4) file)%list.

(** The file that [gzip.open(path, 'wt')] writes for [versioned] under
    the name [b.grapycal]: a member with its file name in the header and
    one block with fixed Huffman codes. *)
Definition deflated_versioned : list byte :=
  [x1f; x8b; x08; x08; x00; x00; x00; x00; x02; xff; x62; x2e; x67; x72;
   x61; x70; x79; x63; x61; x6c; x00; x33; xd0; xb3; xd4; x33; xe0; xaa;
   x56; x4a; xad; x28; x49; xcd; x2b; xce; xcc; xcf; x2b; x56; xb2; x8a;
   x56; x4a; x2f; x4a; x2c; xa8; x4c; x4e; xcc; x89; x2f; xc9; x2f; x4a;
   xce; x50; x8a; xad; xe5; xaa; xae; x05; x00; x92; x8e; x87; x29; x2a;
   x00; x00; x00].

(** A versioned file with a graph of four nodes for payload. *)
Definition graph_metadata : string :=
  quotes "{'extensions':['grapycal_builtin','grapycal_torch'],'title':'demo'}".

Definition graph_payload : string :=
  quotes
    ("{'nodes':[{'id':1,'type':'AdditionNode','x':0,'y':0},"
     ++ "{'id':2,'type':'AdditionNode','x':120,'y':0},"
     ++ "{'id':3,'type':'PrintNode','x':240,'y':0},"
     ++ "{'id':4,'type':'PrintNode','x':360,'y':40}],"
     ++ "'edges':[{'tail':1,'head':3},{'tail':2,'head':3},"
     ++ "{'tail':2,'head':4},{'tail':1,'head':4}]}").

Definition versioned_graph : string :=
  "0.11.3" ++ nl ++ graph_metadata ++ nl ++ graph_payload ++ nl.

(** The file that [gzip.open(path, 'wt')] writes for it under the name
    [c.grapycal]: one block with dynamic Huffman codes. *)
Definition deflated_graph : list byte :=
  [x1f; x8b; x08; x08; x00; x00; x00; x00; x02; xff; x63; x2e; x67; x72;
   x61; x70; x79; x63; x61; x6c; x00; x7d; xcf; xb1; x0a; xc3; x20; x10;
   x06; xe0; x3d; x8f; x71; xb3; x84; x68; xa4; x83; x5b; x5f; xa0; x74;
   x2f; xa1; xd8; x28; x89; x60; x35; x24; x57; x48; x08; xbe; x7b; xb5;
   x29; x15; x02; xcd; xe2; xf0; xfb; xf9; x7b; x57; x95; x94; x96; x75;
   xb1; x82; x9e; x51; xbb; xc9; x78; x37; x81; xb8; x41; x37; xca; x61;
   x69; xa5; xbd; x3f; x5e; xc6; xa2; x71; x40; x72; x84; x7e; x6c; x7b;
   x68; x08; xa0; x41; xab; x41; x80; xd2; x4f; x0f; x21; x76; x38; xaf;
   x74; x7a; xbe; x82; x51; x20; x68; x14; xcb; x90; xc0; x59; x29; x83;
   xb1; xfa; x12; xef; x63; xd3; x0c; xa2; x22; xb0; xc4; x33; x90; x8d;
   xb2; x03; x4a; xd9; x0e; xd7; x3f; x7c; x1d; x8d; xc3; x2c; x19; xdf;
   x49; xfe; x4f; xd6; xa7; x4d; xf2; x2a; xc4; x3d; xb4; xea; xbe; x63;
   xa3; x34; xf6; x33; x78; xaf; x65; xfa; x29; x15; x6d; x19; x3b; xca;
   x78; xce; x68; xce; x9a; x50; xbc; x01; x2c; xa5; x27; x50; x5e; x01;
   x00; x00].

(** A legacy file on one line. *)
Definition legacy : string := quotes "{'foo':1}".

(** Legacy files, each one JSON value, written on several lines. *)
Definition legacy_three_lines : string :=
  quotes "{'a':" ++ nl ++ "1" ++ nl ++ "}".
Definition legacy_nodes : string :=
  quotes "{'nodes':" ++ nl ++ "[]" ++ nl ++ "}".

(** Neither a header nor a JSON value. *)
Definition corrupted : string := "garbage".

(** A header whose metadata line is a JSON number. *)
Definition number_header : string := "0.9.0" ++ nl ++ "1" ++ nl ++ "{}".

Definition ws : node := Dir [ ("a.grapycal", File (plain versioned)) ].

Definition ws_nested : node :=
  Dir [ ("notes.txt", File (plain "hello"));
        ("folder1", Dir [ ("b.grapycal", File (gzipped versioned)) ]);
        ("old.grapycal", File (plain legacy));
        ("link", Other) ].

Definition ws_corrupted : node := Dir [ ("x.grapycal", File (plain corrupted)) ].


Definition ws_number_header : node :=
  Dir [ ("a.grapycal", File (plain number_header));
        ("b.grapycal", File (plain versioned)) ].

(** The nested scenario after the payload of [b.grapycal] was saved anew
    and [notes.txt] was edited. *)
Definition ws_nested_edited : node :=
  Dir [ ("notes.txt", File (plain "bye"));
        ("folder1", Dir [ ("b.grapycal", File (plain versioned_bad_payload)) ]);
        ("old.grapycal", File (plain legacy));
        ("link", Other) ].

End Scenario.

(** * Properties *)

(** ** The decompressor stops *)

Section InflateStops.

Import Gzip.

Local Open Scope nat_scope.

Lemma bits_length (bs : list byte) :
  List.length (flat_map bits_of bs) = 8 * List.length bs.
Proof.
  induction bs as [|b bs IH]; [reflexivity|].
  cbn [flat_map]. rewrite length_app, IH. unfold bits_of. rewrite length_map.
  cbn [List.length]. lia.
Qed.

Lemma ahead_length (h : list bool) (buf : list byte) :
  List.length (ahead h buf) = List.length h + 8 * Nat.min 6 (List.length buf).
Proof.
  unfold ahead. now rewrite length_app, bits_length, length_firstn.
Qed.

Lemma field_length (n : nat) (a : list bool) (v : N) :
  field n a = Some v -> n <= List.length a.
Proof.
  unfold field. destruct (n <=? List.length a) eqn:E; [|discriminate].
  intros _. now apply Nat.leb_le.
Qed.

Lemma symbol_from_length (cs syms : list N) (one : bool) (a : list bool) :
  forall code first index n sym nb,
    symbol_from cs syms code first index n one a = Some (Some sym, nb) ->
    n < nb <= n + List.length a.
Proof.
  revert a. induction cs as [|c cs IH]; intros a code first index n sym nb;
    cbn [symbol_from]; [discriminate|].
  destruct a as [|b a]; [discriminate|].
  destruct (_ <? _)%N.
  - intros [= _ <-]. cbn [List.length]. lia.
  - destruct one; [discriminate|].
    intros H. apply IH in H. cbn [List.length]. lia.
Qed.

Lemma symbol_length (t : table) (a : list bool) (sym : N) (nb : nat) :
  symbol t a = Some (Some sym, nb) -> 0 < nb <= List.length a.
Proof.
  unfold symbol. destruct (shape_of t).
  - intros H. apply symbol_from_length in H. lia.
  - intros H. apply symbol_from_length in H. lia.
  - destruct a; discriminate.
Qed.

(** What [go] leaves of the input and of the held bits. *)
Lemma go_uses (n : nat) (h : list bool) (st : inflater) (buf : list byte)
  (room : nat) (out : list byte) :
  n <= List.length (ahead h buf) ->
  exists st' buf',
    go n h st buf room out = Go st' buf' room out
    /\ at_mode st' = at_mode st
    /\ 8 * List.length buf' + List.length (hold st') + n
       = 8 * List.length buf + List.length h.
Proof.
  rewrite ahead_length. intros Hn. unfold go, fed.
  set (k := (n - List.length h + 7) / 8).
  eexists _, _. split; [reflexivity|]. split; [reflexivity|].
  cbn [hold holding].
  rewrite !length_skipn, length_app, bits_length, length_firstn.
  assert (Hk : 8 * k <= n - List.length h + 7 < 8 * k + 8).
  { unfold k. pose proof (Nat.div_mod_eq (n - List.length h + 7) 8).
    pose proof (Nat.mod_upper_bound (n - List.length h + 7) 8). lia. }
  lia.
Qed.

Lemma copy_uses (len : nat) :
  forall buf room out len' buf' room' out',
    copy len buf room out = (len', buf', room', out') ->
    List.length buf' <= List.length buf
    /\ room' + List.length buf = room + List.length buf'.
Proof.
  induction len as [|len IH]; intros buf room out len' buf' room' out';
    cbn [copy].
  - intros [= _ <- <- _]. lia.
  - destruct buf as [|b buf]; [intros [= _ <- <- _]; cbn; lia|].
    destruct room as [|room]; [intros [= _ <- <- _]; cbn; lia|].
    intros H. apply IH in H. cbn [List.length]. lia.
Qed.

Lemma copy_back_uses (len d : nat) (win : list byte) :
  forall room out len' room' out',
    copy_back len d room out win = (len', room', out') -> room' <= room.
Proof.
  induction len as [|len IH]; intros room out len' room' out';
    cbn [copy_back].
  - intros [= _ <- _]. lia.
  - destruct room as [|room]; [intros [= _ <- _]; lia|].
    destruct (back d out win); [|intros [= _ <- _]; lia].
    intros H. apply IH in H. lia.
Qed.

Lemma byte_aligned_length (h : list bool) :
  List.length (byte_aligned h) <= List.length h.
Proof. unfold byte_aligned. rewrite length_skipn. lia. Qed.

Definition weight (st : inflater) (buf : list byte) (room : nat) : nat :=
  3 * (8 * List.length buf + List.length (hold st) + room) + rank (at_mode st).

Ltac use_go H :=
  match type of H with
  | go ?n ?h ?st ?buf ?room ?out = Go _ _ _ _ =>
      let st1 := fresh "st1" in
      let buf1 := fresh "buf1" in
      let E := fresh "E" in
      let M := fresh "M" in
      let U := fresh "U" in
      destruct (go_uses n h st buf room out) as (st1 & buf1 & E & M & U);
      [|rewrite E in H; injection H as <- <- <- <-]
  end.

(** A step that goes on leaves less to do. *)
Lemma step_uses (st : inflater) (buf : list byte) (room : nat) (out : list byte)
  (st' : inflater) (buf' : list byte) (room' : nat) (out' : list byte) :
  step st buf room out = Go st' buf' room' out' ->
  weight st' buf' room' < weight st buf room.
Proof.
  unfold step, weight. destruct (at_mode st) eqn:Hmode.
  - (* TYPE *)
    destruct (final st); [discriminate|].
    destruct (field 3 _) as [v|] eqn:F; [|discriminate].
    apply field_length in F.
    destruct (N.shiftr v 1) as [|[p|[p|p|]|]]; try discriminate;
      intros H; use_go H; trivial; cbn [at_mode] in M; rewrite M; cbn [rank]; lia.
  - (* STORED *)
    destruct (field 32 _) as [v|] eqn:F; [|discriminate].
    apply field_length in F.
    destruct (negb _); [discriminate|].
    intros H; use_go H; trivial. cbn [at_mode to] in M. rewrite M. cbn [rank].
    pose proof (byte_aligned_length (hold st)). lia.
  - (* COPY *)
    destruct len as [|len].
    + intros [= <- <- <- <-]. cbn [at_mode to hold rank]. lia.
    + destruct buf as [|b buf]; [discriminate|].
      destruct room as [|room]; [discriminate|].
      cbn [copy]. destruct (copy len buf room (b :: out)) as [[[len1 buf1] room1] out1] eqn:C.
      intros [= <- <- <- <-]. apply copy_uses in C.
      cbn [at_mode to hold rank List.length]. lia.
  - (* TABLE *)
    destruct (field 14 _) as [v|] eqn:F; [|discriminate].
    apply field_length in F.
    destruct (_ || _); [discriminate|].
    intros H; use_go H; trivial. cbn [at_mode to] in M. rewrite M. cbn [rank]. lia.
  - (* LENLENS *)
    destruct (_ <? _).
    + destruct (field 3 _) as [v|] eqn:F; [|discriminate].
      apply field_length in F.
      intros H; use_go H; trivial. cbn [at_mode to] in M. rewrite M. cbn [rank]. lia.
    + destruct (table_of true _); [|discriminate].
      intros [= <- <- <- <-]. cbn [at_mode to hold rank]. lia.
  - (* CODELENS *)
    destruct (_ <? _).
    + assert (Hsym :
          match symbol lengths_code (ahead (hold st) buf) with
          | Some (Some sym, nb) =>
              if (sym <? 16)%N
              then go nb (hold st) (to (CODELENS nlen ndist lengths_code (sym :: got)) st)
                     buf room out
              else
                let extra := if (sym =? 16)%N then 2 else if (sym =? 17)%N then 3 else 7 in
                match field extra (skipn nb (ahead (hold st) buf)) with
                | Some v =>
                    match (sym =? 16)%N, got with
                    | true, [] => Fail
                    | _, _ =>
                        let len := if (sym =? 16)%N then hd 0%N got else 0%N in
                        let times := (if (sym =? 18)%N then 11 else 3) + N.to_nat v in
                        if nlen + ndist <? List.length got + times then Fail
                        else go (nb + extra) (hold st)
                               (to (CODELENS nlen ndist lengths_code
                                      (repeat len times ++ got)) st) buf room out
                    end
                | None => starve (hold st) st buf out
                end
          | Some (None, _) => Fail
          | None => starve (hold st) st buf out
          end = Go st' buf' room' out' ->
          3 * (8 * List.length buf' + List.length (hold st') + room')
          + rank (at_mode st')
          < 3 * (8 * List.length buf + List.length (hold st) + room) + 1).
      { destruct (symbol _ _) as [[[sym|] nb]|] eqn:S; try discriminate.
        apply symbol_length in S.
        destruct (sym <? 16)%N.
        - intros H; use_go H; [lia|]. cbn [at_mode to] in M. rewrite M. cbn [rank]. lia.
        - cbv zeta.
          destruct (field _ _) as [v|] eqn:F; [|discriminate].
          apply field_length in F. rewrite length_skipn in F.
          destruct (sym =? 16)%N, got; try discriminate;
            (destruct (_ <? _); [discriminate|]);
            intros H; use_go H; try lia; cbn [at_mode to] in M; rewrite M;
              cbn [rank]; lia. }
      destruct (shape_of lengths_code); trivial.
      destruct (field 1 _) as [v|] eqn:F; [|discriminate].
      apply field_length in F.
      intros H; use_go H; trivial. cbn [at_mode to] in M. rewrite M. cbn [rank]. lia.
    + destruct (_ =? _)%N; [discriminate|].
      destruct (table_of false (firstn _ _)); [|discriminate].
      destruct (table_of false (skipn _ _)); [|discriminate].
      intros [= <- <- <- <-]. cbn [at_mode hold rank]. lia.
  - (* LEN *)
    destruct (symbol _ _) as [[[sym|] nb]|] eqn:S; try discriminate.
    apply symbol_length in S.
    destruct (sym <? 256)%N; [|destruct (sym =? 256)%N; [|destruct (286 <=? sym)%N; [discriminate|]]];
      intros H; use_go H; try lia; cbn [at_mode to] in M; rewrite M; cbn [rank]; lia.
  - (* LENEXT *)
    cbv zeta. destruct (field _ _) as [v|] eqn:F; [|discriminate].
    apply field_length in F.
    intros H; use_go H; trivial. cbn [at_mode to] in M. rewrite M. cbn [rank]. lia.
  - (* DIST *)
    destruct (symbol _ _) as [[[sym|] nb]|] eqn:S; try discriminate.
    apply symbol_length in S.
    destruct (30 <=? sym)%N; [discriminate|].
    intros H; use_go H; try lia. cbn [at_mode to] in M. rewrite M. cbn [rank]. lia.
  - (* DISTEXT *)
    cbv zeta. destruct (field _ _) as [v|] eqn:F; [|discriminate].
    apply field_length in F.
    intros H; use_go H; trivial. cbn [at_mode to] in M. rewrite M. cbn [rank]. lia.
  - (* MATCH *)
    destruct room as [|room]; [discriminate|].
    destruct (back _ _ _) as [b|] eqn:B; [|discriminate].
    destruct len as [|len].
    + cbn [copy_back]. intros [= <- <- <- <-]. cbn [at_mode to hold rank]. lia.
    + cbn [copy_back]. rewrite B.
      destruct (copy_back len _ room _ _) as [[len1 room1] out1] eqn:C.
      apply copy_back_uses in C.
      intros [= <- <- <- <-]. cbn [at_mode to hold].
      destruct len1; cbn [rank]; lia.
  - (* LIT *)
    destruct room as [|room]; [discriminate|].
    intros [= <- <- <- <-]. cbn [at_mode to hold rank]. lia.
  - discriminate.
Qed.

Lemma steps_stop (fuel : nat) :
  forall st buf room out,
    weight st buf room < fuel -> steps fuel st buf room out <> None.
Proof.
  induction fuel as [|fuel IH]; intros st buf room out Hw; [lia|].
  cbn [steps]. destruct (step st buf room out) as [st' buf' room' out'| |] eqn:S;
    try discriminate.
  apply IH. apply step_uses in S. lia.
Qed.

(** A call of [inflate] comes to its end within the steps it is given:
    it stops for want of input or of room, at the end of the data, or
    on an error in them. *)
Theorem inflate_stops (buf : list byte) (room : nat) (st : inflater)
  (out : list byte) :
  steps (enough st buf room) st buf room out = Some (inflate buf room st out).
Proof.
  unfold inflate.
  destruct (steps _ _ _ _ _) eqn:S; [reflexivity|].
  exfalso. revert S. apply steps_stop. unfold enough, weight. lia.
Qed.

End InflateStops.

(** ** The header reader *)

Section TextRuns.

Variable json_loads : string -> result json.

Lemma split_line_lines (t : string) :
  split_line t = (line1 t, after_line1 t).
Proof.
  unfold line1, after_line1. now destruct (split_line t).
Qed.

Lemma readline_run (t rest : string) (es : list exn) :
  readline (at_position t rest es)
  = (Ok (line1 rest), at_position t (after_line1 rest) es).
Proof.
  unfold readline, at_position, set_unread; cbn [unread text caught breaks].
  now rewrite split_line_lines.
Qed.

(** The body of the [try] reads two lines and decodes the second. *)
Lemma try_body_run (t : string) :
  try_body json_loads (fopen t)
  = (match json_loads (line2 t) with
     | Ok metadata => Ok (strip (line1 t), metadata)
     | Raise e => Raise e
     end,
     at_position t (after_line2 t) []).
Proof.
  unfold try_body, bind, fopen.
  change {| text := t; unread := t; caught := []; breaks := None |}
    with (at_position t t []).
  rewrite !readline_run. unfold lift, ret, line2, after_line2.
  now destruct (json_loads (line1 (after_line1 t))).
Qed.

Lemma after_try_run (t rest : string) (es : list exn) (metadata_only : bool) :
  after_try json_loads metadata_only (at_position t rest es)
  = match json_loads (line2 t) with
    | Ok metadata =>
        if metadata_only
        then (Ok (strip (line1 t), metadata, None),
              at_position t (after_line2 t) es)
        else (match json_loads (line3 t) with
              | Ok data => Ok (strip (line1 t), metadata, Some data)
              | Raise e => Raise e
              end,
              at_position t (after_line3 t) es)
    | Raise e => (Raise e, at_position t (after_line2 t) es)
    end.
Proof.
  unfold after_try, bind, seek0, set_unread;
    cbn [text unread caught breaks at_position].
  change {| text := t; unread := t; caught := es; breaks := None |}
    with (at_position t t es).
  rewrite !readline_run. unfold lift, ret.
  fold (line2 t) (after_line2 t).
  destruct (json_loads (line2 t)) as [metadata|e]; [|reflexivity].
  destruct metadata_only; cbn [negb]; [reflexivity|].
  rewrite readline_run. fold (line3 t) (after_line3 t).
  now destruct (json_loads (line3 t)).
Qed.

Lemma except_body_run (t rest : string) (es : list exn) (metadata_only : bool) :
  except_body json_loads metadata_only (at_position t rest es)
  = if metadata_only
    then (Ok ("0.9.0", JObject [], None), at_position t t es)
    else (match json_loads t with
          | Ok data => Ok ("0.9.0", JObject [], Some data)
          | Raise e => Raise e
          end,
          at_position t "" es).
Proof.
  unfold except_body, bind, seek0, read, lift, ret, set_unread;
    cbn [text unread caught breaks at_position].
  destruct metadata_only; cbn [negb text unread caught breaks]; [reflexivity|].
  now destruct (json_loads t).
Qed.

(** The run of the [with] block, by what [json.loads] does on line 2. *)
Lemma read_text_versioned (t : string) (metadata_only : bool) (metadata : json) :
  json_loads (line2 t) = Ok metadata ->
  read_text json_loads t metadata_only
  = if metadata_only
    then (Ok (strip (line1 t), metadata, None), at_position t (after_line2 t) [])
    else (match json_loads (line3 t) with
          | Ok data => Ok (strip (line1 t), metadata, Some data)
          | Raise e => Raise e
          end,
          at_position t (after_line3 t) []).
Proof.
  intros H. unfold read_text, with_open, try_except_JSONDecodeError.
  rewrite try_body_run, H, after_try_run, H. reflexivity.
Qed.

Lemma read_text_legacy (t : string) (metadata_only : bool) :
  json_loads (line2 t) = Raise JSONDecodeError ->
  read_text json_loads t metadata_only
  = if metadata_only
    then (Ok ("0.9.0", JObject [], None), at_position t t [JSONDecodeError])
    else (match json_loads t with
          | Ok data => Ok ("0.9.0", JObject [], Some data)
          | Raise e => Raise e
          end,
          at_position t "" [JSONDecodeError]).
Proof.
  intros H. unfold read_text, with_open, try_except_JSONDecodeError.
  rewrite try_body_run, H. cbn [exn_eqb at_position text unread caught app].
  apply (except_body_run t (after_line2 t) [JSONDecodeError]).
Qed.

Lemma read_text_propagates (t : string) (metadata_only : bool) (e : exn) :
  json_loads (line2 t) = Raise e -> e <> JSONDecodeError ->
  read_text json_loads t metadata_only = (Raise e, at_position t (after_line2 t) []).
Proof.
  intros H Hne. unfold read_text, with_open, try_except_JSONDecodeError.
  rewrite try_body_run, H.
  destruct e; try reflexivity. now elim Hne.
Qed.

(** *** Runs on a stream that breaks *)

Lemma readline_break (d rest : string) (es : list exn) (e_line e_read : exn) :
  readline (at_break d rest es e_line e_read)
  = if single_line (line1 rest)
    then (Raise e_line, at_break d rest es e_line e_read)
    else (Ok (line1 rest), at_break d (after_line1 rest) es e_line e_read).
Proof.
  unfold readline, at_break, set_unread; cbn [unread text caught breaks].
  rewrite split_line_lines. now destruct (single_line (line1 rest)).
Qed.

Lemma try_body_break (d : string) (e_line e_read : exn) :
  try_body json_loads (fopen_broken d e_line e_read)
  = if single_line (line1 d)
    then (Raise e_line, at_break d d [] e_line e_read)
    else if single_line (line2 d)
    then (Raise e_line, at_break d (after_line1 d) [] e_line e_read)
    else (match json_loads (line2 d) with
          | Ok metadata => Ok (strip (line1 d), metadata)
          | Raise e => Raise e
          end,
          at_break d (after_line2 d) [] e_line e_read).
Proof.
  unfold try_body, bind, fopen_broken.
  change {| text := d; unread := d; caught := [];
            breaks := Some (e_line, e_read) |}
    with (at_break d d [] e_line e_read).
  rewrite readline_break.
  destruct (single_line (line1 d)); [reflexivity|].
  rewrite readline_break. fold (line2 d) (after_line2 d).
  destruct (single_line (line2 d)); [reflexivity|].
  unfold lift, ret. now destruct (json_loads (line2 d)).
Qed.

Lemma after_try_break (d rest : string) (es : list exn) (e_line e_read : exn)
  (metadata_only : bool) :
  header_delivered d = true ->
  after_try json_loads metadata_only (at_break d rest es e_line e_read)
  = match json_loads (line2 d) with
    | Ok metadata =>
        if metadata_only
        then (Ok (strip (line1 d), metadata, None),
              at_break d (after_line2 d) es e_line e_read)
        else if single_line (line3 d)
        then (Raise e_line, at_break d (after_line2 d) es e_line e_read)
        else (match json_loads (line3 d) with
              | Ok data => Ok (strip (line1 d), metadata, Some data)
              | Raise e => Raise e
              end,
              at_break d (after_line3 d) es e_line e_read)
    | Raise e => (Raise e, at_break d (after_line2 d) es e_line e_read)
    end.
Proof.
  unfold header_delivered. intros H.
  apply andb_true_iff in H as [H1 H2].
  apply negb_true_iff in H1, H2.
  unfold after_try, bind, seek0, set_unread;
    cbn [text unread caught breaks at_break].
  change {| text := d; unread := d; caught := es;
            breaks := Some (e_line, e_read) |}
    with (at_break d d es e_line e_read).
  rewrite readline_break, H1, readline_break.
  fold (line2 d) (after_line2 d). rewrite H2. unfold lift, ret.
  destruct (json_loads (line2 d)) as [metadata|e]; [|reflexivity].
  destruct metadata_only; cbn [negb]; [reflexivity|].
  rewrite readline_break. fold (line3 d) (after_line3 d).
  destruct (single_line (line3 d)); [reflexivity|].
  now destruct (json_loads (line3 d)).
Qed.

Lemma except_body_break (d rest : string) (es : list exn) (e_line e_read : exn)
  (metadata_only : bool) :
  except_body json_loads metadata_only (at_break d rest es e_line e_read)
  = if metadata_only
    then (Ok ("0.9.0", JObject [], None), at_break d d es e_line e_read)
    else (Raise e_read, at_break d d es e_line e_read).
Proof.
  unfold except_body, bind, seek0, read, lift, ret, set_unread;
    cbn [text unread caught breaks at_break].
  now destruct metadata_only.
Qed.

(** The run of the [with] block on a stream that breaks: the header is
    read as on a stream that does not when the two lines are delivered,
    and the exception of the stream goes through the [try] statement as
    any other does. *)
Lemma read_broken_run (d : string) (e_line e_read : exn) (metadata_only : bool) :
  read_broken json_loads d e_line e_read metadata_only
  = if header_delivered d then
      match json_loads (line2 d) with
      | Ok metadata =>
          if metadata_only
          then (Ok (strip (line1 d), metadata, None),
                at_break d (after_line2 d) [] e_line e_read)
          else if single_line (line3 d)
          then (Raise e_line, at_break d (after_line2 d) [] e_line e_read)
          else (match json_loads (line3 d) with
                | Ok data => Ok (strip (line1 d), metadata, Some data)
                | Raise e => Raise e
                end,
                at_break d (after_line3 d) [] e_line e_read)
      | Raise e =>
          if exn_eqb e JSONDecodeError
          then if metadata_only
               then (Ok ("0.9.0", JObject [], None),
                     at_break d d [e] e_line e_read)
               else (Raise e_read, at_break d d [e] e_line e_read)
          else (Raise e, at_break d (after_line2 d) [] e_line e_read)
      end
    else
      if exn_eqb e_line JSONDecodeError
      then if metadata_only
           then (Ok ("0.9.0", JObject [], None),
                 at_break d d [e_line] e_line e_read)
           else (Raise e_read, at_break d d [e_line] e_line e_read)
      else (Raise e_line,
            at_break d (if single_line (line1 d) then d else after_line1 d) []
              e_line e_read).
Proof.
  unfold read_broken, with_open, try_except_JSONDecodeError.
  rewrite try_body_break.
  destruct (header_delivered d) eqn:Hd; unfold header_delivered in Hd.
  - pose proof Hd as Hd'.
    apply andb_true_iff in Hd as [H1 H2].
    apply negb_true_iff in H1, H2. rewrite H1, H2.
    destruct (json_loads (line2 d)) as [metadata|e] eqn:E.
    + rewrite (after_try_break _ _ _ _ _ _ Hd'), E. reflexivity.
    + destruct (exn_eqb e JSONDecodeError); [|reflexivity].
      cbn [text unread caught breaks at_break app].
      apply (except_body_break d (after_line2 d) [e]).
  - destruct (single_line (line1 d)); cbn [negb andb] in Hd.
    + destruct (exn_eqb e_line JSONDecodeError); [|reflexivity].
      cbn [text unread caught breaks at_break app].
      apply (except_body_break d d [e_line]).
    + apply negb_false_iff in Hd. rewrite Hd.
      destruct (exn_eqb e_line JSONDecodeError); [|reflexivity].
      cbn [text unread caught breaks at_break app].
      apply (except_body_break d (after_line1 d) [e_line]).
Qed.

End TextRuns.

Section ReaderProperties.

Variable json_loads : string -> result json.
Variables utf8_text gzip_text : list byte -> result string.
Variables utf8_lines gzip_lines : list byte -> string * exn.

Local Abbreviation open_func := (open_func utf8_text gzip_text).
Local Abbreviation open_lines := (open_lines utf8_lines gzip_lines).
Local Abbreviation read_workspace :=
  (read_workspace json_loads utf8_text gzip_text utf8_lines gzip_lines).

Lemma open_func_gzip (raw : list byte) :
  firstn 2 raw = gzip_magic -> open_func raw = gzip_text raw.
Proof.
  intros H. unfold open_func, bytes_eqb. rewrite H.
  now destruct (list_eq_dec byte_eq_dec gzip_magic gzip_magic).
Qed.

Lemma open_func_plain (raw : list byte) :
  firstn 2 raw <> gzip_magic -> open_func raw = utf8_text raw.
Proof.
  intros H. unfold open_func, bytes_eqb.
  now destruct (list_eq_dec byte_eq_dec (firstn 2 raw) gzip_magic).
Qed.

Lemma read_workspace_opened (path : string) (raw : list byte) (t : string)
  (metadata_only : bool) :
  open_func raw = Ok t ->
  read_workspace path raw metadata_only = fst (read_text json_loads t metadata_only).
Proof.
  intros H. unfold read_workspace. now rewrite H.
Qed.

Lemma read_workspace_not_opened (path : string) (raw : list byte) (e : exn)
  (metadata_only : bool) :
  open_func raw = Raise e ->
  read_workspace path raw metadata_only
  = fst (read_broken json_loads (fst (open_lines raw)) (snd (open_lines raw)) e
           metadata_only).
Proof.
  intros H. unfold read_workspace. rewrite H. now destruct (open_lines raw).
Qed.

(** *** Lines *)

Lemma split_line_app (l rest : string) :
  single_line l = true -> split_line (l ++ nl ++ rest) = (l ++ nl, rest).
Proof.
  induction l as [|c l IH]; cbn [single_line append split_line].
  - intros _. unfold nl; cbn [append split_line].
    now rewrite Ascii.eqb_refl.
  - intros H. apply andb_true_iff in H as [Hc Hl].
    apply negb_true_iff in Hc. rewrite Hc, (IH Hl). reflexivity.
Qed.


(** A text without line feed is its own first line, and has no second. *)
Lemma lines_of_single_line (t : string) :
  single_line t = true -> line1 t = t /\ line2 t = "".
Proof.
  intros H. assert (E : split_line t = (t, "")).
  { induction t as [|c t IH]; [reflexivity|].
    cbn [single_line] in H. apply andb_true_iff in H as [Hc Ht].
    apply negb_true_iff in Hc. cbn [split_line]. now rewrite Hc, (IH Ht). }
  unfold line2, line1, after_line1. rewrite E. auto.
Qed.

(** *** [strip] takes the line terminator off *)

Lemma chars_app (a b : string) :
  list_ascii_of_string (a ++ b)
  = (list_ascii_of_string a ++ list_ascii_of_string b)%list.
Proof.
  induction a as [|c a IH]; cbn; [reflexivity|now rewrite IH].
Qed.



(** *** The claims on the header reader *)

(** C2, as amended.  A file whose second line [json.loads] rejects is read
    as a legacy file: version ["0.9.0"], empty metadata, no payload when
    only the metadata is asked for, and otherwise the whole content
    decoded as one JSON document (or the error of decoding it). *)
Theorem legacy_when_line2_is_not_json (path : string) (raw : list byte)
  (t : string) :
  open_func raw = Ok t ->
  json_loads (line2 t) = Raise JSONDecodeError ->
  read_workspace path raw true = Ok ("0.9.0", JObject [], None)
  /\ (forall payload, json_loads t = Ok payload ->
      read_workspace path raw false = Ok ("0.9.0", JObject [], Some payload))
  /\ (forall e, json_loads t = Raise e ->
      read_workspace path raw false = Raise e).
Proof.
  intros Hopen H2. rewrite !(read_workspace_opened _ _ t) by assumption.
  rewrite !(read_text_legacy json_loads) by assumption. cbn [fst].
  split; [reflexivity|]. split; intros x Hx; now rewrite Hx.
Qed.


(** C6.  The [except] clause is entered exactly when [json.loads] raises
    [JSONDecodeError] on line 2; the run is then that of the legacy path.
    Any other exception of [json.loads] on line 2 leaves the call as it
    is; when line 2 decodes, the version is line 1 stripped and the
    metadata what line 2 decodes to.  On a stream that breaks the same
    holds of the lines it delivers, and the exception of a stream that
    breaks before it has delivered two lines leaves the call as it is. *)
Theorem fallback_exactly_on_line2_decode_error (t : string)
  (metadata_only : bool) :
  (fell_back (snd (read_text json_loads t metadata_only))
   <-> json_loads (line2 t) = Raise JSONDecodeError)
  /\ (json_loads (line2 t) = Raise JSONDecodeError ->
      fst (read_text json_loads t metadata_only)
      = if metadata_only then Ok ("0.9.0", JObject [], None)
        else match json_loads t with
             | Ok data => Ok ("0.9.0", JObject [], Some data)
             | Raise e => Raise e
             end)
  /\ (forall e, json_loads (line2 t) = Raise e -> e <> JSONDecodeError ->
      fst (read_text json_loads t metadata_only) = Raise e)
  /\ (forall metadata, json_loads (line2 t) = Ok metadata ->
      fst (read_text json_loads t metadata_only)
      = if metadata_only then Ok (strip (line1 t), metadata, None)
        else match json_loads (line3 t) with
             | Ok data => Ok (strip (line1 t), metadata, Some data)
             | Raise e => Raise e
             end)
  /\ (forall (path : string) (raw : list byte) (delivered : string)
             (e_line e_read : exn),
      open_func raw = Raise e_read ->
      open_lines raw = (delivered, e_line) ->
      e_line <> JSONDecodeError ->
      (header_delivered delivered = false ->
       read_workspace path raw metadata_only = Raise e_line)
      /\ (fell_back
            (snd (read_broken json_loads delivered e_line e_read metadata_only))
          <-> header_delivered delivered = true
              /\ json_loads (line2 delivered) = Raise JSONDecodeError)).
Proof.
  assert (Hlegacy : json_loads (line2 t) = Raise JSONDecodeError ->
                    fell_back (snd (read_text json_loads t metadata_only))).
  { intros H. rewrite (read_text_legacy json_loads t metadata_only H).
    destruct metadata_only; cbn; auto. }
  split; [split; [|exact Hlegacy]|split; [|split; [|split]]].
  - destruct (json_loads (line2 t)) as [metadata|e] eqn:E.
    + rewrite (read_text_versioned json_loads t metadata_only metadata E).
      destruct metadata_only; cbn; tauto.
    + destruct (exn_eqb e JSONDecodeError) eqn:Ee.
      * intros _. now destruct e.
      * assert (Hne : e <> JSONDecodeError) by (intros ->; discriminate).
        rewrite (read_text_propagates json_loads t metadata_only e E Hne).
        cbn; tauto.
  - intros H. rewrite (read_text_legacy json_loads t metadata_only H).
    now destruct metadata_only.
  - intros e H Hne.
    now rewrite (read_text_propagates json_loads t metadata_only e H Hne).
  - intros metadata H.
    rewrite (read_text_versioned json_loads t metadata_only metadata H).
    now destruct metadata_only.
  - intros path raw d e_line e_read Hopen Hlines Hne.
    rewrite (read_workspace_not_opened path raw e_read) by assumption.
    rewrite Hlines; cbn [fst snd]. rewrite read_broken_run.
    assert (Hb : exn_eqb e_line JSONDecodeError = false)
      by (destruct e_line; try reflexivity; now elim Hne).
    destruct (header_delivered d).
    + split; [discriminate|].
      destruct (json_loads (line2 d)) as [metadata|e] eqn:E.
      * destruct metadata_only; [|destruct (single_line (line3 d))];
          cbn; split; try tauto; intros [_ H]; discriminate.
      * destruct (exn_eqb e JSONDecodeError) eqn:Ee.
        -- assert (e = JSONDecodeError) by (now destruct e). subst e.
           destruct metadata_only; cbn; tauto.
        -- cbn. split; [tauto|]. intros [_ [= ->]]. discriminate.
    + rewrite Hb. cbn [fst snd]. split; [reflexivity|].
      cbn. split; [tauto|]. intros [H _]. discriminate.
Qed.

(** C9, as amended.  A gzip-compressed file whose text, as the gzip
    stream yields it, has a second line that [json.loads] rejects is read
    as a legacy file: the file is opened by its first two bytes, and the
    [with] block then runs on the text as on that of any stream. *)
Theorem gzip_legacy_when_line2_is_not_json (path : string) (raw : list byte)
  (t : string) :
  firstn 2 raw = gzip_magic ->
  gzip_text raw = Ok t ->
  json_loads (line2 t) = Raise JSONDecodeError ->
  read_workspace path raw true = Ok ("0.9.0", JObject [], None)
  /\ (forall payload, json_loads t = Ok payload ->
      read_workspace path raw false = Ok ("0.9.0", JObject [], Some payload))
  /\ (forall e, json_loads t = Raise e ->
      read_workspace path raw false = Raise e)
  /\ (forall metadata_only,
      read_workspace path raw metadata_only
      = fst (read_text json_loads t metadata_only)).
Proof.
  intros Hm Hg H2.
  assert (Hopen : open_func raw = Ok t) by now rewrite open_func_gzip.
  split; [|split; [|split]].
  - rewrite (read_workspace_opened _ _ t) by assumption.
    now rewrite (read_text_legacy json_loads).
  - intros payload Hp. rewrite (read_workspace_opened _ _ t) by assumption.
    rewrite (read_text_legacy json_loads) by assumption. cbn [fst].
    now rewrite Hp.
  - intros e He. rewrite (read_workspace_opened _ _ t) by assumption.
    rewrite (read_text_legacy json_loads) by assumption. cbn [fst].
    now rewrite He.
  - intros metadata_only. now apply read_workspace_opened.
Qed.

End ReaderProperties.

(** ** Paths and dictionaries *)

Lemma endswith_iff (s suffix : string) :
  endswith s suffix = true <-> exists pre, s = pre ++ suffix.
Proof.
  induction s as [|c r IH]; cbn [endswith].
  - destruct (String.eqb_spec "" suffix) as [E|N].
    + split; [intros _; now exists ""|reflexivity].
    + split; [discriminate|]. intros [pre E]. elim N.
      destruct pre; cbn in E; [exact E|discriminate].
  - destruct (String.eqb_spec (String c r) suffix) as [E|N].
    + split; [intros _; now exists ""|reflexivity].
    + rewrite IH. split.
      * intros [pre E]. exists (String c pre). cbn. now rewrite E.
      * intros [pre E]. destruct pre as [|c' pre]; cbn in E.
        -- now elim N.
        -- injection E as _ E. now exists pre.
Qed.

Lemma string_app_assoc (a b c : string) : (a ++ b) ++ c = a ++ b ++ c.
Proof.
  induction a as [|x a IH]; cbn; [reflexivity|now rewrite IH].
Qed.

Lemma chars_inj (a b : string) :
  list_ascii_of_string a = list_ascii_of_string b -> a = b.
Proof.
  intros H. rewrite <- (string_of_list_ascii_of_string a),
    <- (string_of_list_ascii_of_string b). now rewrite H.
Qed.

(** A path component that follows a separator ends with the extension
    exactly when the whole path does: the extension holds no separator. *)
Lemma endswith_after_sep (x p : string) :
  endswith ((x ++ sep) ++ p) extension = endswith p extension.
Proof.
  apply eq_true_iff_eq. rewrite !endswith_iff. split.
  - intros [pre E].
    apply (f_equal list_ascii_of_string) in E.
    rewrite !chars_app in E.
    apply app_eq_app in E as [l [[E1 E2]|[E1 E2]]].
    + destruct l as [|a l0].
      * cbn in E2. exists "". cbn. apply chars_inj. now rewrite <- E2.
      * exfalso.
        destruct (exists_last (l := a :: l0)) as (l' & z & El);
          [discriminate|]. rewrite El in E1, E2. clear El a l0.
        rewrite app_assoc in E1.
        change (list_ascii_of_string sep) with ["/"%char] in E1.
        apply app_inj_tail in E1 as [_ <-].
        assert (Hin : In "/"%char (list_ascii_of_string extension)).
        { rewrite E2. apply in_or_app. left. apply in_or_app. right. now left. }
        cbn in Hin. intuition discriminate.
    + exists (string_of_list_ascii l). apply chars_inj.
      now rewrite chars_app, list_ascii_of_string_of_list_ascii.
  - intros [pre ->]. exists ((x ++ sep) ++ pre).
    symmetry. apply string_app_assoc.
Qed.

Lemma endswith_join (path p : string) :
  endswith (join path p) extension = endswith p extension.
Proof.
  unfold join. destruct (prefix sep p); [reflexivity|].
  destruct (String.eqb_spec path "") as [->|_]; [reflexivity|]. cbn [orb].
  destruct (endswith path sep) eqn:E.
  - apply endswith_iff in E as [x ->]. apply endswith_after_sep.
  - rewrite <- string_app_assoc. apply endswith_after_sep.
Qed.

(** [s] holds no separator. *)
Lemma last_component_app (acc s : string) :
  no_separator s -> last_component acc s = acc ++ s.
Proof.
  revert acc. induction s as [|c s IH]; intros acc H; cbn.
  - clear H. induction acc as [|a acc IHacc]; cbn; [reflexivity|now f_equal].
  - cbn in H. apply andb_true_iff in H as [Hc Hs]. apply negb_true_iff in Hc.
    rewrite Hc, (IH _ Hs). now rewrite string_app_assoc.
Qed.

Lemma last_component_after_sep (acc x s : string) :
  last_component acc ((x ++ sep) ++ s) = last_component "" s.
Proof.
  revert acc. induction x as [|c x IH]; intros acc; cbn.
  - reflexivity.
  - destruct (Ascii.eqb c "/"); apply IH.
Qed.

(** The record of a child directory carries the name under which the
    directory is listed: [basename] undoes [join] on a name without
    separator. *)
Theorem basename_of_joined_name (path p : string) :
  no_separator p -> basename (join path p) = p.
Proof.
  intros Hp. unfold basename, join.
  assert (Hprefix : prefix sep p = false).
  { destruct p as [|c p]; [reflexivity|]. cbn in Hp.
    apply andb_true_iff in Hp as [Hc _]. apply negb_true_iff in Hc.
    unfold sep. cbn [prefix].
    destruct (ascii_dec "/" c) as [<-|N]; [discriminate|reflexivity]. }
  rewrite Hprefix.
  destruct (String.eqb_spec path "") as [->|_]; cbn [orb].
  - now apply last_component_app.
  - destruct (endswith path sep) eqn:E.
    + apply endswith_iff in E as [x ->].
      rewrite last_component_after_sep. now apply last_component_app.
    + rewrite <- string_app_assoc, last_component_after_sep.
      now apply last_component_app.
Qed.

Lemma dict_get_set (k : string) (v : json) (d : dict) :
  dict_get k (dict_set k v d) = Some v.
Proof.
  induction d as [|[k' v'] d IH]; cbn.
  - now rewrite String.eqb_refl.
  - destruct (String.eqb k' k) eqn:E; cbn; now rewrite E.
Qed.

Lemma dict_get_set_other (k k' : string) (v : json) (d : dict) :
  k' <> k -> dict_get k' (dict_set k v d) = dict_get k' d.
Proof.
  intros N. induction d as [|[k0 v0] d IH]; cbn.
  - destruct (String.eqb_spec k k'); [now elim N|reflexivity].
  - destruct (String.eqb_spec k0 k) as [->|_]; cbn.
    + destruct (String.eqb_spec k k'); [now elim N|reflexivity].
    + now rewrite IH.
Qed.

Lemma setitem_get (o : json) (k : string) (v o' : json) :
  setitem o k v = Ok o' ->
  get k o' = Some v /\ (forall k', k' <> k -> get k' o' = get k' o).
Proof.
  destruct o; try discriminate. cbn. intros [= <-]. cbn. split.
  - apply dict_get_set.
  - intros k' N. now apply dict_get_set_other.
Qed.

(** ** The directory walk *)

Section WalkProperties.

Variable json_loads : string -> result json.
Variables utf8_text gzip_text : list byte -> result string.
Variables utf8_lines gzip_lines : list byte -> string * exn.

Local Abbreviation read_workspace :=
  (read_workspace json_loads utf8_text gzip_text utf8_lines gzip_lines).
Local Abbreviation index_file := (index_file json_loads utf8_text gzip_text utf8_lines gzip_lines).
Local Abbreviation process_dir := (process_dir json_loads utf8_text gzip_text utf8_lines gzip_lines).
Local Abbreviation scan_directory :=
  (scan_directory json_loads utf8_text gzip_text utf8_lines gzip_lines).
Local Abbreviation for_listdir :=
  (for_listdir json_loads utf8_text gzip_text utf8_lines gzip_lines process_dir).

(** The path and the raw content of a listed workspace file. *)
Local Abbreviation path_of f := (fst (fst f)).
Local Abbreviation raw_of f := (snd f).

(** Induction on a tree, with the property at hand for every child of a
    directory. *)
Lemma node_induction (P : node -> Prop) :
  (forall children, Forall (fun pc => P (snd pc)) children -> P (Dir children)) ->
  (forall raw, P (File raw)) ->
  P Other ->
  forall n, P n.
Proof.
  intros HDir HFile HOther.
  fix IH 1. intros [children|raw|].
  - apply HDir. induction children as [|[p child] rest IHrest].
    + constructor.
    + constructor; [apply IH|exact IHrest].
  - apply HFile.
  - exact HOther.
Qed.

Lemma process_dir_Dir (path : string) (children : list (string * node)) :
  process_dir path (Dir children)
  = let (r, t) := for_listdir path children [] [] in (r, Listdir path :: t).
Proof. reflexivity. Qed.

Lemma index_file_name (full_path p : string) (raw : list byte) (metadata : json) :
  index_file full_path p raw = Ok metadata ->
  get "name" metadata = Some (JString p).
Proof.
  unfold index_file.
  destruct (read_workspace full_path raw true) as [[[version m] data]|e];
    [|discriminate].
  intros H. now apply setitem_get in H.
Qed.

(** The entry of a file is its metadata line with the name added: the
    version that [read_workspace] returns is not in it, and the entry has
    a ["version"] exactly when the metadata line has one. *)
Theorem entry_is_metadata_with_name (full_path p : string) (raw : list byte)
  (entry : json) :
  index_file full_path p raw = Ok entry ->
  exists version metadata data,
    read_workspace full_path raw true = Ok (version, metadata, data)
    /\ setitem metadata "name" (JString p) = Ok entry
    /\ get "version" entry = get "version" metadata.
Proof.
  unfold index_file.
  destruct (read_workspace full_path raw true) as [[[version m] data]|e];
    [|discriminate].
  intros H. exists version, m, data. repeat split; [exact H|].
  apply setitem_get in H as [_ H]. apply H. discriminate.
Qed.

Lemma for_listdir_cons (path p : string) (child : node)
  (ps : list (string * node)) (folders files : list json) :
  for_listdir path ((p, child) :: ps) folders files
  = match child with
    | Dir _ =>
        match process_dir (join path p) child with
        | (Ok d, t) =>
            let (r, t') := for_listdir path ps (folders ++ [d]) files in
            (r, (t ++ t')%list)
        | (Raise e, t) => (Raise e, t)
        end
    | File raw =>
        if endswith p extension then
          match index_file (join path p) p raw with
          | Ok metadata =>
              let (r, t') := for_listdir path ps folders (files ++ [metadata]) in
              (r, ReadHeader (join path p) :: t')
          | Raise e => (Raise e, [ReadHeader (join path p)])
          end
        else for_listdir path ps folders files
    | Other => for_listdir path ps folders files
    end.
Proof.
  rewrite <- (endswith_join path p). reflexivity.
Qed.

(** What one run of the loop adds to the two lists, when it ends without
    an exception. *)
Lemma for_listdir_record (path : string) (ps : list (string * node)) :
  forall folders files r t,
    for_listdir path ps folders files = (Ok r, t) ->
    exists fs ds,
      r = record (basename path) (files ++ fs) (folders ++ ds)
      /\ Forall2
           (fun pc metadata =>
              exists raw, snd pc = File raw
                /\ index_file (join path (fst pc)) (fst pc) raw = Ok metadata)
           (filter is_workspace_file ps) fs
      /\ Forall2
           (fun pc d => scan_directory (join path (fst pc)) (snd pc) = Ok d)
           (filter (fun pc => is_dir (snd pc)) ps) ds.
Proof.
  induction ps as [|[p child] ps IH]; intros folders files r t H.
  - cbn in H. injection H as <- _. exists [], []. rewrite !app_nil_r.
    repeat split; constructor.
  - rewrite for_listdir_cons in H.
    destruct child as [l|raw|]; cbn [filter is_workspace_file is_dir fst snd].
    + destruct (process_dir (join path p) (Dir l)) as [[d|e] t1] eqn:E;
        [|discriminate].
      destruct (for_listdir path ps (folders ++ [d]) files) as [r' t'] eqn:E'.
      injection H as -> _.
      apply IH in E' as (fs & ds & -> & Hf & Hd).
      exists fs, (d :: ds). rewrite <- app_assoc. repeat split; [exact Hf|].
      constructor; [|exact Hd].
      unfold scan_directory. cbn [fst snd]. now rewrite E.
    + destruct (endswith p extension) eqn:Ext.
      * destruct (index_file (join path p) p raw) as [metadata|e] eqn:E;
          [|discriminate].
        destruct (for_listdir path ps folders (files ++ [metadata]))
          as [r' t'] eqn:E'.
        injection H as -> _.
        apply IH in E' as (fs & ds & -> & Hf & Hd).
        exists (metadata :: fs), ds. rewrite <- app_assoc.
        repeat split; [|exact Hd].
        constructor; [|exact Hf]. exists raw. now split.
      * now apply IH in H.
    + now apply IH in H.
Qed.


Lemma for_listdir_skip (path p : string) (child : node)
  (before after : list (string * node)) :
  is_dir child = false -> is_workspace_file (p, child) = false ->
  forall folders files,
    for_listdir path (before ++ (p, child) :: after) folders files
    = for_listdir path (before ++ after) folders files.
Proof.
  intros Hd Hw.
  induction before as [|[q c] before IH]; intros folders files.
  - cbn [app]. rewrite for_listdir_cons.
    destruct child as [l|raw|]; [discriminate| |reflexivity].
    cbn in Hw. now rewrite Hw.
  - cbn [app]. rewrite !for_listdir_cons.
    destruct c as [l|raw|].
    + destruct (process_dir (join path q) (Dir l)) as [[d|e] t1];
        [|reflexivity]. now rewrite IH.
    + destruct (endswith q extension); [|apply IH].
      destruct (index_file (join path q) q raw); [|reflexivity].
      now rewrite IH.
    + apply IH.
Qed.

(** *** The first file that fails *)

Lemma first_failure_here (e : exn) (f : string * string * list byte)
  (fs : list (string * string * list byte)) :
  index_entry index_file f = Raise e -> first_failure index_file e (f :: fs).
Proof.
  intros H. exists [], f, fs. repeat split; [constructor|exact H].
Qed.

Lemma first_failure_app_l (e : exn) (fs gs : list (string * string * list byte)) :
  first_failure index_file e fs -> first_failure index_file e (fs ++ gs).
Proof.
  intros (before & f & after & -> & Hb & Hf).
  exists before, f, (after ++ gs)%list.
  rewrite <- app_assoc. cbn [app]. auto.
Qed.

Lemma first_failure_app_r (e : exn) (fs gs : list (string * string * list byte)) :
  Forall (indexed index_file) fs -> first_failure index_file e gs ->
  first_failure index_file e (fs ++ gs).
Proof.
  intros Hfs (before & f & after & -> & Hb & Hf).
  exists (fs ++ before)%list, f, after.
  rewrite <- app_assoc. repeat split; [|exact Hf].
  apply Forall_app. now split.
Qed.


Lemma first_failure_not_all (e : exn) (fs : list (string * string * list byte)) :
  first_failure index_file e fs -> ~ Forall (indexed index_file) fs.
Proof.
  intros (b & f & a & -> & _ & Hf) Hall.
  apply Forall_app in Hall as [_ Hall].
  apply Forall_inv in Hall as [m Hm]. congruence.
Qed.

(** *** The walk, by its result *)

Lemma workspace_files_Dir (path : string) (children : list (string * node)) :
  workspace_files path (Dir children) = flat_map (child_files path) children.
Proof. reflexivity. Qed.

Lemma full_walk_Dir (path : string) (children : list (string * node)) :
  full_walk path (Dir children)
  = Listdir path :: flat_map (child_walk path) children.
Proof. reflexivity. Qed.

(** The loop over children for each of which the walk of a directory
    is as [walk_by_result] states. *)
Lemma for_listdir_by_result (path : string) (ps : list (string * node)) :
  Forall
    (fun pc =>
       forall path',
         match process_dir path' (snd pc) with
         | (Ok _, t) =>
             t = full_walk path' (snd pc)
             /\ Forall (indexed index_file) (workspace_files path' (snd pc))
         | (Raise e, t) =>
             (exists rest, full_walk path' (snd pc) = (t ++ rest)%list)
             /\ (is_dir (snd pc) = true ->
                 first_failure index_file e (workspace_files path' (snd pc)))
         end) ps ->
  forall folders files,
    match for_listdir path ps folders files with
    | (Ok _, t) =>
        t = flat_map (child_walk path) ps
        /\ Forall (indexed index_file) (flat_map (child_files path) ps)
    | (Raise e, t) =>
        (exists rest, flat_map (child_walk path) ps = (t ++ rest)%list)
        /\ first_failure index_file e (flat_map (child_files path) ps)
    end.
Proof.
  induction 1 as [|[p child] ps Hchild _ IH]; intros folders files.
  - cbn. split; [reflexivity|constructor].
  - rewrite for_listdir_cons. cbn [flat_map child_walk child_files].
    rewrite (endswith_join path p). cbn [snd] in Hchild.
    destruct child as [l|raw|].
    + specialize (Hchild (join path p)).
      destruct (process_dir (join path p) (Dir l)) as [[d|e] t1].
      * destruct Hchild as [-> Hall].
        specialize (IH (folders ++ [d])%list files).
        destruct (for_listdir path ps (folders ++ [d]) files) as [[r|e] t'].
        -- destruct IH as [-> Hrest]. split; [reflexivity|].
           apply Forall_app. now split.
        -- destruct IH as [[rest Hrest] Hfail]. split.
           ++ exists rest. now rewrite Hrest, app_assoc.
           ++ now apply first_failure_app_r.
      * destruct Hchild as [[rest Hrest] Hfail]. split.
        -- exists (rest ++ flat_map (child_walk path) ps)%list.
           now rewrite Hrest, app_assoc.
        -- apply first_failure_app_l. now apply Hfail.
    + destruct (endswith p extension).
      * destruct (index_file (join path p) p raw) as [metadata|e] eqn:E.
        -- specialize (IH folders (files ++ [metadata])%list).
           destruct (for_listdir path ps folders (files ++ [metadata]))
             as [[r|e] t'].
           ++ destruct IH as [-> Hrest]. split; [reflexivity|].
              constructor; [now exists metadata|exact Hrest].
           ++ destruct IH as [[rest Hrest] Hfail]. split.
              ** exists rest. cbn [app]. now rewrite Hrest.
              ** apply (first_failure_app_r e [(join path p, p, raw)]);
                   [|exact Hfail].
                 constructor; [now exists metadata|constructor].
        -- split.
           ++ now exists (flat_map (child_walk path) ps).
           ++ now apply first_failure_here.
      * apply IH.
    + apply IH.
Qed.

(** A walk that returns has made every call of [full_walk] and indexed
    every workspace file; a walk that raises has made the first calls of
    [full_walk], and raises what the first file that cannot be indexed
    raises. *)
Lemma walk_by_result (n : node) :
  forall path,
    match process_dir path n with
    | (Ok _, t) =>
        t = full_walk path n
        /\ Forall (indexed index_file) (workspace_files path n)
    | (Raise e, t) =>
        (exists rest, full_walk path n = (t ++ rest)%list)
        /\ (is_dir n = true ->
            first_failure index_file e (workspace_files path n))
    end.
Proof.
  induction n as [children IH|raw|] using node_induction; intros path.
  - rewrite process_dir_Dir, full_walk_Dir, workspace_files_Dir.
    pose proof (for_listdir_by_result path children IH [] []) as H.
    destruct (for_listdir path children [] []) as [[r|e] t].
    + destruct H as [-> Hall]. now split.
    + destruct H as [[rest ->] Hfail]. split; [now exists rest|auto].
  - cbn. split; [now exists []|discriminate].
  - cbn. split; [now exists []|discriminate].
Qed.

(** *** The calls of a complete walk *)

Lemma full_walk_reads (n : node) :
  forall path,
    filter is_read (full_walk path n)
    = map (fun f => ReadHeader (path_of f)) (workspace_files path n).
Proof.
  induction n as [children IH|raw|] using node_induction; intros path;
    [|reflexivity|reflexivity].
  rewrite full_walk_Dir, workspace_files_Dir. cbn [filter is_read is_listdir negb].
  induction IH as [|[p c] ps Hc _ IHps]; [reflexivity|].
  cbn [flat_map]. rewrite filter_app, map_app, IHps. f_equal.
  cbn [child_walk child_files snd] in *.
  destruct c as [l|raw|]; [apply Hc| |reflexivity].
  now destruct (endswith (join path p) extension).
Qed.

Lemma child_walk_listdirs (path : string) (pc : string * node) :
  (forall path', List.length (filter is_listdir (full_walk path' (snd pc)))
                 = if is_dir (snd pc) then count_dirs (snd pc) else 1) ->
  List.length (filter is_listdir (child_walk path pc)) = count_dirs (snd pc).
Proof.
  destruct pc as [p [l|raw|]]; cbn [snd child_walk is_dir]; intros H.
  - apply H.
  - now destruct (endswith (join path p) extension).
  - reflexivity.
Qed.

Lemma full_walk_listdirs (n : node) :
  forall path,
    List.length (filter is_listdir (full_walk path n))
    = if is_dir n then count_dirs n else 1.
Proof.
  induction n as [children IH|raw|] using node_induction; intros path;
    [|reflexivity|reflexivity].
  rewrite full_walk_Dir. cbn [filter is_listdir is_dir count_dirs List.length].
  f_equal.
  induction IH as [|[p c] ps Hc _ IHps]; [reflexivity|].
  cbn [flat_map map list_sum fold_right]. rewrite filter_app, length_app, IHps.
  f_equal. exact (child_walk_listdirs path (p, c) Hc).
Qed.

(** *** Where a walk that raises stops *)

Lemma first_failure_place (before before' after after' :
                             list (string * string * list byte))
  (f f' : string * string * list byte) (e e' : exn) :
  (before ++ f :: after)%list = (before' ++ f' :: after')%list ->
  Forall (indexed index_file) before -> index_entry index_file f = Raise e ->
  Forall (indexed index_file) before' -> index_entry index_file f' = Raise e' ->
  before = before' /\ f = f' /\ after = after'.
Proof.
  revert before'. induction before as [|x b IH]; intros b' E Hb Hf Hb' Hf'.
  - destruct b' as [|y b']; cbn in E.
    + injection E as -> ->. auto.
    + injection E as -> _. apply Forall_inv in Hb' as [m Hm]. congruence.
  - destruct b' as [|y b']; cbn in E.
    + injection E as <- _. apply Forall_inv in Hb as [m Hm]. congruence.
    + injection E as <- E.
      destruct (IH b' E (Forall_inv_tail Hb) Hf (Forall_inv_tail Hb') Hf')
        as (-> & -> & ->).
      auto.
Qed.

Lemma stopped_at_app_l (e : exn) (fs gs : list (string * string * list byte))
  (t : list event) :
  stopped_at index_file e fs t -> stopped_at index_file e (fs ++ gs) t.
Proof.
  intros (before & f & after & t0 & -> & Hb & Hf & Ht & Hr).
  exists before, f, (after ++ gs)%list, t0.
  rewrite <- app_assoc. cbn [app]. auto.
Qed.

Lemma stopped_at_app_r (e : exn) (fs gs : list (string * string * list byte))
  (t1 t : list event) :
  Forall (indexed index_file) fs ->
  filter is_read t1 = map (fun g => ReadHeader (path_of g)) fs ->
  stopped_at index_file e gs t ->
  stopped_at index_file e (fs ++ gs) (t1 ++ t).
Proof.
  intros Hfs Ht1 (before & f & after & t0 & -> & Hb & Hf & -> & Hr).
  exists (fs ++ before)%list, f, after, (t1 ++ t0)%list.
  rewrite <- !app_assoc, filter_app, map_app, Ht1, Hr.
  repeat split; [|exact Hf]. apply Forall_app. now split.
Qed.

Lemma for_listdir_stops (path : string) (ps : list (string * node)) :
  Forall
    (fun pc =>
       forall path',
         match process_dir path' (snd pc) with
         | (Ok _, _) => True
         | (Raise e, t) =>
             is_dir (snd pc) = true ->
             stopped_at index_file e (workspace_files path' (snd pc)) t
         end) ps ->
  forall folders files,
    match for_listdir path ps folders files with
    | (Ok _, _) => True
    | (Raise e, t) => stopped_at index_file e (flat_map (child_files path) ps) t
    end.
Proof.
  induction 1 as [|[p child] ps Hchild _ IH]; intros folders files.
  - exact I.
  - rewrite for_listdir_cons. cbn [flat_map child_files].
    rewrite (endswith_join path p). cbn [snd] in Hchild.
    destruct child as [l|raw|].
    + specialize (Hchild (join path p)).
      pose proof (walk_by_result (Dir l) (join path p)) as Hwalk.
      destruct (process_dir (join path p) (Dir l)) as [[d|e] t1].
      * destruct Hwalk as [-> Hall].
        specialize (IH (folders ++ [d])%list files).
        destruct (for_listdir path ps (folders ++ [d]) files) as [[r|e] t'];
          [exact I|].
        apply stopped_at_app_r; [exact Hall|apply full_walk_reads|exact IH].
      * apply stopped_at_app_l. now apply Hchild.
    + destruct (endswith p extension).
      * destruct (index_file (join path p) p raw) as [metadata|e] eqn:E.
        -- specialize (IH folders (files ++ [metadata])%list).
           destruct (for_listdir path ps folders (files ++ [metadata]))
             as [[r|e] t']; [exact I|].
           apply (stopped_at_app_r e [(join path p, p, raw)] _
                    [ReadHeader (join path p)]);
             [|reflexivity|exact IH].
           constructor; [now exists metadata|constructor].
        -- exists [], (join path p, p, raw), (flat_map (child_files path) ps), [].
           repeat split; [constructor|exact E].
      * apply IH.
    + apply IH.
Qed.

(** A walk of a directory that raises has just read the first file that
    cannot be indexed. *)
Lemma walk_stops (n : node) :
  forall path,
    match process_dir path n with
    | (Ok _, _) => True
    | (Raise e, t) =>
        is_dir n = true -> stopped_at index_file e (workspace_files path n) t
    end.
Proof.
  induction n as [children IH|raw|] using node_induction; intros path.
  - rewrite process_dir_Dir, workspace_files_Dir.
    pose proof (for_listdir_stops path children IH [] []) as H.
    destruct (for_listdir path children [] []) as [[r|e] t]; [exact I|].
    intros _. destruct H as (before & f & after & t0 & E & Hb & Hf & -> & Hr).
    exists before, f, after, (Listdir path :: t0). auto.
  - cbn. discriminate.
  - cbn. discriminate.
Qed.

(** *** The claims on the walk *)

(** C7.  When the walk of a directory returns a record, its [files] are
    the headers of the children that are regular files with a name ending
    in [.grapycal], each under that name and in the order of the listing,
    and its [dirs] are the records of the child directories, one each and
    in the order of the listing.  A child that is neither is ignored: the
    walk of the directory, whether it returns or raises, gives the same
    result and makes the same calls as the walk of the directory without
    that child. *)
Theorem record_holds_workspace_files_and_dirs (path : string)
  (children : list (string * node)) :
  (forall r,
      scan_directory path (Dir children) = Ok r ->
      exists files dirs,
        r = record (basename path) files dirs
        /\ map (get "name") files
           = map (fun pc => Some (JString (fst pc)))
               (filter is_workspace_file children)
        /\ Forall (fun metadata =>
                     exists p, get "name" metadata = Some (JString p)
                               /\ endswith p extension = true) files
        /\ Forall2
             (fun pc d => scan_directory (join path (fst pc)) (snd pc) = Ok d)
             (filter (fun pc => is_dir (snd pc)) children) dirs
        /\ List.length dirs
           = List.length (filter (fun pc => is_dir (snd pc)) children))
  /\ (forall before p child after,
         children = (before ++ (p, child) :: after)%list ->
         is_dir child = false -> is_workspace_file (p, child) = false ->
         process_dir path (Dir children)
         = process_dir path (Dir (before ++ after))).
Proof.
  split.
  - unfold scan_directory. rewrite process_dir_Dir.
    destruct (for_listdir path children [] []) as [r0 t] eqn:E.
    cbn [fst]. intros r ->.
    destruct (for_listdir_record path children [] [] r t E)
      as (fs & ds & -> & Hf & Hd).
    exists fs, ds. cbn [app]. split; [reflexivity|].
    assert (Hnames : forall ps fs',
               Forall2
                 (fun pc metadata =>
                    exists raw, snd pc = File raw
                      /\ index_file (join path (fst pc)) (fst pc) raw
                         = Ok metadata)
                 (filter is_workspace_file ps) fs' ->
               map (get "name") fs'
               = map (fun pc => Some (JString (fst pc)))
                   (filter is_workspace_file ps)
               /\ Forall (fun metadata =>
                            exists p, get "name" metadata = Some (JString p)
                                      /\ endswith p extension = true) fs').
    { intros ps fs' H.
      assert (Hin : Forall (fun pc => is_workspace_file pc = true)
                      (filter is_workspace_file ps)).
      { apply Forall_forall. intros x Hx. now apply filter_In in Hx. }
      induction H as [|pc m l l' (raw & Hraw & Hidx) _ IH];
        [split; constructor|].
      apply index_file_name in Hidx.
      destruct (IH (Forall_inv_tail Hin)) as [IH1 IH2].
      split; cbn [map]; [now rewrite Hidx, IH1|].
      constructor; [|exact IH2]. exists (fst pc). split; [exact Hidx|].
      apply Forall_inv in Hin. unfold is_workspace_file in Hin.
      now rewrite Hraw in Hin. }
    destruct (Hnames children fs Hf) as [H1 H2].
    repeat split; try assumption.
    symmetry. exact (Forall2_length Hd).
  - intros before p child after -> Hdir Hws.
    rewrite !process_dir_Dir.
    now rewrite (for_listdir_skip path p child before after Hdir Hws).
Qed.

(** C10, as amended.  The walk of a directory tree ends, with a record or
    an exception.  When every workspace file of the tree can be indexed
    it returns a record, and its calls are one [os.listdir] per directory
    of the tree and one [read_workspace] per workspace file.  Otherwise
    it raises what the first file that cannot be indexed raises, right
    after the read of that file: it has read the workspace files before
    it once each and none after it.  The walk of an empty directory
    returns a record with two empty lists. *)
Theorem walk_visits_each_once_when_it_returns (path : string)
  (children : list (string * node)) :
  (Forall (indexed index_file) (workspace_files path (Dir children)) ->
   exists r,
     process_dir path (Dir children) = (Ok r, full_walk path (Dir children)))
  /\ (filter is_read (full_walk path (Dir children))
      = map (fun f => ReadHeader (path_of f))
          (workspace_files path (Dir children))
      /\ List.length (filter is_listdir (full_walk path (Dir children)))
         = count_dirs (Dir children))
  /\ (forall before f after e,
         workspace_files path (Dir children) = (before ++ f :: after)%list ->
         Forall (indexed index_file) before ->
         index_entry index_file f = Raise e ->
         exists t0,
           process_dir path (Dir children)
           = (Raise e, (t0 ++ [ReadHeader (path_of f)])%list)
           /\ filter is_read t0 = map (fun g => ReadHeader (path_of g)) before
           /\ exists rest,
               full_walk path (Dir children)
               = ((t0 ++ [ReadHeader (path_of f)]) ++ rest)%list)
  /\ (Forall (indexed index_file) (workspace_files path (Dir children))
      \/ exists e,
          first_failure index_file e (workspace_files path (Dir children)))
  /\ process_dir path (Dir [])
     = (Ok (record (basename path) [] []), [Listdir path]).
Proof.
  pose proof (walk_by_result (Dir children) path) as H.
  pose proof (walk_stops (Dir children) path) as Hstop.
  split; [|split; [|split; [|split; [|reflexivity]]]].
  - intros Hall.
    destruct (process_dir path (Dir children)) as [[r|e] t].
    + destruct H as [-> _]. now exists r.
    + destruct H as [_ Hfail]. specialize (Hfail eq_refl).
      now elim (first_failure_not_all e _ Hfail).
  - split; [apply full_walk_reads|apply (full_walk_listdirs (Dir children))].
  - intros before f after e Hsplit Hbefore Hf.
    destruct (process_dir path (Dir children)) as [[r|e'] t].
    + destruct H as [_ Hall]. rewrite Hsplit in Hall.
      apply Forall_app in Hall as [_ Hall].
      apply Forall_inv in Hall as [m Hm]. congruence.
    + destruct H as [Hrest _].
      destruct (Hstop eq_refl)
        as (before' & f' & after' & t0 & E & Hb' & Hf' & -> & Hr).
      rewrite Hsplit in E.
      destruct (first_failure_place _ _ _ _ _ _ _ _ E Hbefore Hf Hb' Hf')
        as (<- & <- & <-).
      assert (e' = e) by congruence. subst e'.
      exists t0. auto.
  - destruct (process_dir path (Dir children)) as [[r|e] t].
    + left. apply H.
    + right. exists e. now apply H.
Qed.

End WalkProperties.

(** * The scenarios, run *)

Import Scenario.

(** The gzip file of the scenarios is the one [gzip] writes at level 0. *)
Example gzipped_legacy_bytes :
  map Byte.to_N (gzipped legacy)
  = [31; 139; 8; 0; 0; 0; 0; 0; 4; 3; 1; 9; 0; 246; 255;
     123; 34; 102; 111; 111; 34; 58; 49; 125;
     129; 5; 36; 238; 9; 0; 0; 0]%N
  /\ Gzip.text (gzipped legacy) = Ok legacy.
Proof. split; vm_compute; reflexivity. Qed.

(** C1.  The scenario of the spec on the code: the version of
    [a.grapycal] is read, and the entry of the file in the record holds
    the metadata line and the name, and no ["version"]. *)
Theorem scenario_entry_has_no_version :
  Run.read_workspace "ws/a.grapycal" (plain versioned) true
  = Ok ("0.9.0", JObject [("extensions", JArray [JString "grapycal_torch"])],
        None)
  /\ Run.scan_directory "ws" ws
     = Ok (record "ws"
             [JObject [("extensions", JArray [JString "grapycal_torch"]);
                       ("name", JString "a.grapycal")]]
             [])
  /\ get "version"
       (JObject [("extensions", JArray [JString "grapycal_torch"]);
                 ("name", JString "a.grapycal")]) = None.
Proof. repeat split; vm_compute; reflexivity. Qed.

(** C2 fails on a legacy file written on three lines: its content is one
    JSON object, its second line is the JSON number 1, and it is read as a
    versioned file with that number as metadata; with the payload asked
    for, the call raises. *)
Lemma legacy_on_three_lines_is_read_as_versioned :
  Json.loads legacy_three_lines = Ok (JObject [("a", JInt 1)])
  /\ Run.read_workspace "old.grapycal" (plain legacy_three_lines) true
     = Ok (quotes "{'a':", JInt 1, None)
  /\ Run.read_workspace "old.grapycal" (plain legacy_three_lines) true
     <> Ok ("0.9.0", JObject [], None)
  /\ Run.read_workspace "old.grapycal" (plain legacy_three_lines) false
     = Raise JSONDecodeError.
Proof.
  repeat split; try (vm_compute; reflexivity).
  vm_compute. discriminate.
Qed.

Lemma legacy_on_one_line_is_read_as_legacy :
  Run.read_workspace "old.grapycal" (plain legacy) true
  = Ok ("0.9.0", JObject [], None)
  /\ (forall payload, Json.loads legacy = Ok payload ->
      Run.read_workspace "old.grapycal" (plain legacy) false
      = Ok ("0.9.0", JObject [], Some payload))
  /\ (forall e, Json.loads legacy = Raise e ->
      Run.read_workspace "old.grapycal" (plain legacy) false = Raise e).
Proof.
  apply (legacy_when_line2_is_not_json Json.loads Utf8.text Gzip.text Utf8.lines Gzip.lines
           "old.grapycal" (plain legacy) legacy);
    vm_compute; reflexivity.
Defined.


Lemma corrupted_file_falls_back :
  fell_back (snd (read_text Json.loads corrupted true))
  /\ fst (read_text Json.loads corrupted true) = Ok ("0.9.0", JObject [], None).
Proof.
  pose proof (fallback_exactly_on_line2_decode_error
                Json.loads Utf8.text Gzip.text Utf8.lines Gzip.lines corrupted true)
    as (Hiff & Hlegacy & _).
  assert (H : Json.loads (line2 corrupted) = Raise JSONDecodeError)
    by (vm_compute; reflexivity).
  split; [apply Hiff, H|apply Hlegacy, H].
Defined.

(** C9 fails on the gzip file of a legacy document written on three
    lines: the decompressed text is one JSON object, its second line is
    the JSON array [[]], and the file is read as a versioned file. *)
Lemma gzipped_legacy_on_three_lines_is_read_as_versioned :
  firstn 2 (gzipped legacy_nodes) = gzip_magic
  /\ Gzip.text (gzipped legacy_nodes) = Ok legacy_nodes
  /\ Json.loads legacy_nodes = Ok (JObject [("nodes", JArray [])])
  /\ Run.read_workspace "old.grapycal" (gzipped legacy_nodes) true
     = Ok (quotes "{'nodes':", JArray [], None)
  /\ Run.read_workspace "old.grapycal" (gzipped legacy_nodes) true
     <> Ok ("0.9.0", JObject [], None).
Proof.
  repeat split; try (vm_compute; reflexivity).
  vm_compute. discriminate.
Qed.

Lemma gzipped_legacy_on_one_line_is_read_as_legacy :
  Run.read_workspace "old.grapycal" (gzipped legacy) false
  = Ok ("0.9.0", JObject [], Some (JObject [("foo", JInt 1)]))
  /\ Run.read_workspace "old.grapycal" (gzipped legacy) true
     = Ok ("0.9.0", JObject [], None)
  /\ (forall payload, Json.loads legacy = Ok payload ->
      Run.read_workspace "old.grapycal" (gzipped legacy) false
      = Ok ("0.9.0", JObject [], Some payload))
  /\ (forall e, Json.loads legacy = Raise e ->
      Run.read_workspace "old.grapycal" (gzipped legacy) false = Raise e)
  /\ (forall metadata_only,
      Run.read_workspace "old.grapycal" (gzipped legacy) metadata_only
      = fst (read_text Json.loads legacy metadata_only)).
Proof.
  split; [vm_compute; reflexivity|].
  apply (gzip_legacy_when_line2_is_not_json Json.loads Utf8.text Gzip.text
           Utf8.lines Gzip.lines "old.grapycal" (gzipped legacy) legacy);
    vm_compute; reflexivity.
Defined.

(** The walk of the nested scenario: [notes.txt] and the dangling link
    are left out, [folder1] is a record of [dirs]; without [notes.txt]
    the walk is the same. *)
Lemma nested_scenario_record :
  (exists files dirs,
      record "ws"
        [JObject [("name", JString "old.grapycal")]]
        [record "folder1"
           [JObject [("extensions", JArray [JString "grapycal_torch"]);
                     ("name", JString "b.grapycal")]] []]
      = record (basename "ws") files dirs
      /\ map (get "name") files
         = map (fun pc => Some (JString (fst pc)))
             (filter is_workspace_file
                [ ("notes.txt", File (plain "hello"));
                  ("folder1", Dir [ ("b.grapycal", File (gzipped versioned)) ]);
                  ("old.grapycal", File (plain legacy));
                  ("link", Other) ])
      /\ Forall (fun metadata =>
                   exists p, get "name" metadata = Some (JString p)
                             /\ endswith p extension = true) files
      /\ Forall2
           (fun pc d => Run.scan_directory (join "ws" (fst pc)) (snd pc) = Ok d)
           (filter (fun pc => is_dir (snd pc))
              [ ("notes.txt", File (plain "hello"));
                ("folder1", Dir [ ("b.grapycal", File (gzipped versioned)) ]);
                ("old.grapycal", File (plain legacy));
                ("link", Other) ]) dirs
      /\ List.length dirs
         = List.length
             (filter (fun pc => is_dir (snd pc))
                [ ("notes.txt", File (plain "hello"));
                  ("folder1", Dir [ ("b.grapycal", File (gzipped versioned)) ]);
                  ("old.grapycal", File (plain legacy));
                  ("link", Other) ]))
  /\ Run.process_dir "ws"
       (Dir [ ("notes.txt", File (plain "hello"));
              ("folder1", Dir [ ("b.grapycal", File (gzipped versioned)) ]);
              ("old.grapycal", File (plain legacy));
              ("link", Other) ])
     = Run.process_dir "ws"
         (Dir [ ("folder1", Dir [ ("b.grapycal", File (gzipped versioned)) ]);
                ("old.grapycal", File (plain legacy));
                ("link", Other) ]).
Proof.
  destruct (record_holds_workspace_files_and_dirs Json.loads Utf8.text
              Gzip.text Utf8.lines Gzip.lines "ws"
              [ ("notes.txt", File (plain "hello"));
                ("folder1", Dir [ ("b.grapycal", File (gzipped versioned)) ]);
                ("old.grapycal", File (plain legacy));
                ("link", Other) ]) as [Hrecord Hskip].
  split.
  - apply Hrecord. vm_compute; reflexivity.
  - apply (Hskip [] "notes.txt" (File (plain "hello"))); reflexivity.
Defined.


(** C10 fails on a directory whose first file has a number as metadata
    line: putting the name into it raises, the walk stops, and
    [b.grapycal], a workspace file of the directory, is never read. *)
Lemma walk_stops_before_later_files :
  Run.process_dir "ws" ws_number_header
  = (Raise TypeError, [Listdir "ws"; ReadHeader "ws/a.grapycal"])
  /\ In ("ws/b.grapycal", "b.grapycal", plain versioned)
       (workspace_files "ws" ws_number_header)
  /\ ~ In (ReadHeader "ws/b.grapycal")
         (snd (Run.process_dir "ws" ws_number_header)).
Proof.
  split; [vm_compute; reflexivity|]. split.
  - vm_compute. right. left. reflexivity.
  - vm_compute. intros [H|[H|H]]; [discriminate|discriminate|exact H].
Qed.

(** The walk of the nested scenario returns, having made every call; the
    walk of the directory with a number as metadata line stops at its
    first file. *)
Lemma nested_scenario_walk :
  (exists r,
      Run.process_dir "ws"
        (Dir [ ("notes.txt", File (plain "hello"));
               ("folder1", Dir [ ("b.grapycal", File (gzipped versioned)) ]);
               ("old.grapycal", File (plain legacy));
               ("link", Other) ])
      = (Ok r, [Listdir "ws"; Listdir "ws/folder1";
                ReadHeader "ws/folder1/b.grapycal";
                ReadHeader "ws/old.grapycal"]))
  /\ (exists t0,
         Run.process_dir "ws"
           (Dir [ ("a.grapycal", File (plain number_header));
                  ("b.grapycal", File (plain versioned)) ])
         = (Raise TypeError, (t0 ++ [ReadHeader "ws/a.grapycal"])%list)
         /\ filter is_read t0 = []
         /\ exists rest,
             [Listdir "ws"; ReadHeader "ws/a.grapycal";
              ReadHeader "ws/b.grapycal"]
             = ((t0 ++ [ReadHeader "ws/a.grapycal"]) ++ rest)%list).
Proof.
  split.
  - apply (proj1 (walk_visits_each_once_when_it_returns Json.loads Utf8.text
                    Gzip.text Utf8.lines Gzip.lines "ws"
                    [ ("notes.txt", File (plain "hello"));
                      ("folder1",
                       Dir [ ("b.grapycal", File (gzipped versioned)) ]);
                      ("old.grapycal", File (plain legacy));
                      ("link", Other) ])).
    apply Forall_forall. intros f Hf. vm_compute in Hf.
    repeat (destruct Hf as [<-|Hf]; [eexists; vm_compute; reflexivity|]).
    destruct Hf.
  - apply (proj1 (proj2 (proj2 (walk_visits_each_once_when_it_returns
                                  Json.loads Utf8.text Gzip.text Utf8.lines
                                  Gzip.lines "ws"
                                  [ ("a.grapycal", File (plain number_header));
                                    ("b.grapycal", File (plain versioned)) ])))
             [] ("ws/a.grapycal", "a.grapycal", plain number_header)
             [("ws/b.grapycal", "b.grapycal", plain versioned)] TypeError).
    + vm_compute; reflexivity.
    + constructor.
    + vm_compute; reflexivity.
Defined.

Lemma folder1_is_named_by_its_directory :
  basename (join "ws" "folder1") = "folder1".
Proof.
  apply (basename_of_joined_name "ws" "folder1"). vm_compute; reflexivity.
Defined.

Lemma scenario_entry_is_metadata_with_name :
  exists version metadata data,
    Run.read_workspace "ws/a.grapycal" (plain versioned) true
    = Ok (version, metadata, data)
    /\ setitem metadata "name" (JString "a.grapycal")
       = Ok (JObject [("extensions", JArray [JString "grapycal_torch"]);
                      ("name", JString "a.grapycal")])
    /\ get "version"
         (JObject [("extensions", JArray [JString "grapycal_torch"]);
                   ("name", JString "a.grapycal")])
       = get "version" metadata.
Proof.
  apply (entry_is_metadata_with_name Json.loads Utf8.text Gzip.text Utf8.lines Gzip.lines
           "ws/a.grapycal" "a.grapycal" (plain versioned)).
  vm_compute; reflexivity.
Defined.

(** * More on the header reader *)

(** ** [strip] leaves no white space at either end *)

Lemma drop_prefix_some (p l r : list ascii) :
  drop_prefix p l = Some r -> l = (p ++ r)%list.
Proof.
  revert l. induction p as [|a p IH]; intros l H; cbn in H.
  - now injection H as ->.
  - destruct l as [|b l]; [discriminate|].
    destruct (Ascii.eqb_spec a b) as [->|_]; [|discriminate].
    cbn. f_equal. now apply IH.
Qed.

Lemma drop_prefix_app (p a b r : list ascii) :
  drop_prefix p a = Some r -> drop_prefix p (a ++ b) = Some (r ++ b)%list.
Proof.
  revert a. induction p as [|x p IH]; intros a H; cbn in H.
  - now injection H as ->.
  - destruct a as [|y a]; [discriminate|]. cbn.
    destruct (Ascii.eqb x y); [now apply IH|discriminate].
Qed.

Lemma wide_spaces_not_empty :
  Forall (fun p => p <> []) wide_spaces
  /\ Forall (fun p => p <> []) (map (@rev ascii) wide_spaces).
Proof.
  split; apply Forall_forall; intros p Hp; cbn in Hp;
    repeat (destruct Hp as [<-|Hp]; [discriminate|]); destruct Hp.
Qed.

(** What [space_prefix] takes off is a prefix, and not an empty one. *)
Lemma space_prefix_some (wide : list (list ascii)) (l r : list ascii) :
  Forall (fun p => p <> []) wide ->
  space_prefix wide l = Some r ->
  exists pre, pre <> [] /\ l = (pre ++ r)%list.
Proof.
  intros Hwide. destruct l as [|c l]; [discriminate|]. cbn [space_prefix].
  destruct (isspace c).
  - intros [= ->]. now exists [c].
  - induction Hwide as [|p wide Hp _ IH]; cbn [fold_right]; [discriminate|].
    destruct (drop_prefix p (c :: l)) as [r'|] eqn:E; [|exact IH].
    intros [= ->]. exists p. split; [exact Hp|]. now apply drop_prefix_some.
Qed.

Lemma space_prefix_of_prefix (wide : list (list ascii)) (a b : list ascii) :
  space_prefix wide (a ++ b) = None -> space_prefix wide a = None.
Proof.
  destruct a as [|c a]; [reflexivity|]. cbn [app space_prefix].
  destruct (isspace c); [discriminate|].
  induction wide as [|p wide IH]; cbn [fold_right]; [reflexivity|].
  destruct (drop_prefix p (c :: a)) as [r|] eqn:E.
  - change (c :: a ++ b)%list with ((c :: a) ++ b)%list.
    now rewrite (drop_prefix_app p (c :: a) b r E).
  - destruct (drop_prefix p (c :: a ++ b)); [discriminate|exact IH].
Qed.

(** With enough steps, [lstrip_upto] ends where no white space starts. *)
Lemma lstrip_upto_clean (wide : list (list ascii)) (n : nat) :
  Forall (fun p => p <> []) wide ->
  forall l, List.length l <= n ->
            space_prefix wide (lstrip_upto n wide l) = None.
Proof.
  intros Hwide. induction n as [|n IH]; intros l Hlen; cbn [lstrip_upto].
  - destruct l; [reflexivity|cbn in Hlen; lia].
  - destruct (space_prefix wide l) as [r|] eqn:E; [|exact E].
    apply IH.
    destruct (space_prefix_some wide l r Hwide E) as (pre & Hpre & ->).
    rewrite length_app in Hlen. destruct pre; [now elim Hpre|cbn in Hlen; lia].
Qed.

Lemma lstrip_upto_suffix (wide : list (list ascii)) (n : nat) :
  Forall (fun p => p <> []) wide ->
  forall l, exists pre, l = (pre ++ lstrip_upto n wide l)%list.
Proof.
  intros Hwide. induction n as [|n IH]; intros l; cbn [lstrip_upto].
  - now exists [].
  - destruct (space_prefix wide l) as [r|] eqn:E; [|now exists []].
    destruct (space_prefix_some wide l r Hwide E) as (pre & _ & ->).
    destruct (IH r) as [pre' Hr]. exists (pre ++ pre')%list.
    rewrite <- app_assoc. now rewrite <- Hr.
Qed.

Lemma strip_is_stripped (s : string) : stripped (strip s).
Proof.
  destruct wide_spaces_not_empty as [Hwide Hwide'].
  unfold stripped, strip. rewrite list_ascii_of_string_of_list_ascii.
  set (l := list_ascii_of_string s).
  set (x := lstrip_upto (List.length l) (map (@rev ascii) wide_spaces) (rev l)).
  assert (Hx : space_prefix (map (@rev ascii) wide_spaces) x = None).
  { apply lstrip_upto_clean; [exact Hwide'|]. now rewrite length_rev. }
  unfold rstrip. fold x. split.
  - apply lstrip_upto_clean; [exact Hwide|]. unfold lstrip. lia.
  - unfold lstrip.
    destruct (lstrip_upto_suffix wide_spaces (List.length (rev x)) Hwide (rev x))
      as [pre Hpre].
    set (z := lstrip_upto (List.length (rev x)) wide_spaces (rev x)) in *.
    apply (space_prefix_of_prefix _ (rev z) (rev pre)).
    now rewrite <- rev_app_distr, <- Hpre, rev_involutive.
Qed.

(** ** [strip] trims a line *)










Lemma text_of_app (a b : list N) : text_of (a ++ b) = text_of a ++ text_of b.
Proof.
  induction a as [|cp a IH]; cbn [app text_of fold_right]; [reflexivity|].
  fold (text_of (a ++ b)) (text_of a). now rewrite IH, string_app_assoc.
Qed.







(** ** The two modes *)

Section MoreReaderProperties.

Variable json_loads : string -> result json.
Variables utf8_text gzip_text : list byte -> result string.
Variables utf8_lines gzip_lines : list byte -> string * exn.

Local Abbreviation open_func := (open_func utf8_text gzip_text).
Local Abbreviation open_lines := (open_lines utf8_lines gzip_lines).
Local Abbreviation header_lines :=
  (header_lines utf8_text gzip_text utf8_lines gzip_lines).
Local Abbreviation read_workspace :=
  (read_workspace json_loads utf8_text gzip_text utf8_lines gzip_lines).

(** What the [with] block returns, by [json.loads] on lines 2 and 3 and
    on the whole text. *)
Lemma read_text_metadata_only (t : string) :
  fst (read_text json_loads t true)
  = match json_loads (line2 t) with
    | Ok metadata => Ok (strip (line1 t), metadata, None)
    | Raise e =>
        if exn_eqb e JSONDecodeError then Ok ("0.9.0", JObject [], None)
        else Raise e
    end.
Proof.
  destruct (json_loads (line2 t)) as [metadata|e] eqn:E.
  - now rewrite (read_text_versioned json_loads t true metadata E).
  - destruct (exn_eqb e JSONDecodeError) eqn:Ee.
    + assert (e = JSONDecodeError) by (now destruct e). subst e.
      now rewrite (read_text_legacy json_loads t true E).
    + rewrite (read_text_propagates json_loads t true e E); [reflexivity|].
      intros ->. discriminate.
Qed.

Lemma read_text_with_payload (t : string) :
  fst (read_text json_loads t false)
  = match json_loads (line2 t) with
    | Ok metadata =>
        match json_loads (line3 t) with
        | Ok data => Ok (strip (line1 t), metadata, Some data)
        | Raise e => Raise e
        end
    | Raise e =>
        if exn_eqb e JSONDecodeError then
          match json_loads t with
          | Ok data => Ok ("0.9.0", JObject [], Some data)
          | Raise e' => Raise e'
          end
        else Raise e
    end.
Proof.
  destruct (json_loads (line2 t)) as [metadata|e] eqn:E.
  - now rewrite (read_text_versioned json_loads t false metadata E).
  - destruct (exn_eqb e JSONDecodeError) eqn:Ee.
    + assert (e = JSONDecodeError) by (now destruct e). subst e.
      now rewrite (read_text_legacy json_loads t false E).
    + rewrite (read_text_propagates json_loads t false e E); [reflexivity|].
      intros ->. discriminate.
Qed.

Lemma read_workspace_cases (path : string) (raw : list byte)
  (metadata_only : bool) :
  read_workspace path raw metadata_only
  = match open_func raw with
    | Ok t => fst (read_text json_loads t metadata_only)
    | Raise e_read =>
        fst (read_broken json_loads (fst (open_lines raw)) (snd (open_lines raw))
               e_read metadata_only)
    end.
Proof.
  unfold read_workspace.
  destruct (open_func raw); [reflexivity|]. now destruct (open_lines raw).
Qed.

(** The metadata-only read on a stream that breaks. *)
Lemma read_broken_metadata_only (d : string) (e_line e_read : exn) :
  fst (read_broken json_loads d e_line e_read true)
  = if header_delivered d then
      match json_loads (line2 d) with
      | Ok metadata => Ok (strip (line1 d), metadata, None)
      | Raise e =>
          if exn_eqb e JSONDecodeError then Ok ("0.9.0", JObject [], None)
          else Raise e
      end
    else
      if exn_eqb e_line JSONDecodeError then Ok ("0.9.0", JObject [], None)
      else Raise e_line.
Proof.
  rewrite read_broken_run.
  destruct (header_delivered d).
  - destruct (json_loads (line2 d)) as [metadata|e]; [reflexivity|].
    now destruct (exn_eqb e JSONDecodeError).
  - now destruct (exn_eqb e_line JSONDecodeError).
Qed.

(** The metadata-only read sees the first two lines and nothing else. *)
Lemma read_metadata_only_by_header (path : string) (raw : list byte) :
  read_workspace path raw true
  = match header_lines raw with
    | Ok (l1, l2) =>
        match json_loads l2 with
        | Ok metadata => Ok (strip l1, metadata, None)
        | Raise e =>
            if exn_eqb e JSONDecodeError then Ok ("0.9.0", JObject [], None)
            else Raise e
        end
    | Raise e =>
        if exn_eqb e JSONDecodeError then Ok ("0.9.0", JObject [], None)
        else Raise e
    end.
Proof.
  rewrite read_workspace_cases. unfold header_lines.
  destruct (open_func raw) as [t|e_read].
  - apply read_text_metadata_only.
  - destruct (open_lines raw) as [d e_line]. cbn [fst snd].
    rewrite read_broken_metadata_only. now destruct (header_delivered d).
Qed.

(** The metadata-only read of two texts with the same first two lines. *)
Lemma read_text_same_header (t t' : string) :
  line1 t = line1 t' -> line2 t = line2 t' ->
  fst (read_text json_loads t true) = fst (read_text json_loads t' true).
Proof.
  intros H1 H2. rewrite !read_text_metadata_only. now rewrite H1, H2.
Qed.


(** The two modes agree on the header: when the read with the payload
    returns, the metadata-only read of the same file returns the same
    version and the same metadata. *)
Theorem full_read_extends_metadata_only_read (path : string)
  (raw : list byte) (version : string) (metadata : json)
  (data : option json) :
  read_workspace path raw false = Ok (version, metadata, data) ->
  read_workspace path raw true = Ok (version, metadata, None).
Proof.
  rewrite !read_workspace_cases.
  destruct (open_func raw) as [t|e_read].
  - rewrite read_text_with_payload, read_text_metadata_only.
    destruct (json_loads (line2 t)) as [m|e].
    + destruct (json_loads (line3 t)) as [d|e]; [|discriminate].
      now intros [= <- <- <-].
    + destruct (exn_eqb e JSONDecodeError); [|discriminate].
      destruct (json_loads t) as [d|e']; [|discriminate].
      now intros [= <- <- <-].
  - rewrite read_broken_metadata_only, read_broken_run.
    destruct (header_delivered (fst (open_lines raw))).
    + destruct (json_loads (line2 (fst (open_lines raw)))) as [m|e].
      * destruct (single_line (line3 (fst (open_lines raw)))); [discriminate|].
        cbn [fst].
        destruct (json_loads (line3 (fst (open_lines raw)))); [|discriminate].
        now intros [= <- <- <-].
      * destruct (exn_eqb e JSONDecodeError); discriminate.
    + destruct (exn_eqb (snd (open_lines raw)) JSONDecodeError); discriminate.
Qed.

(** What is read of a file.  The metadata-only read of two files whose
    texts have the same first two lines gives the same result, whatever
    follows; when line 2 decodes, the read with the payload of two files
    whose texts have the same first three lines gives the same result:
    nothing after line 3 is read. *)
Theorem read_depends_on_the_first_lines (path path' : string)
  (raw raw' : list byte) (t t' : string) :
  open_func raw = Ok t -> open_func raw' = Ok t' ->
  line1 t = line1 t' -> line2 t = line2 t' ->
  read_workspace path raw true = read_workspace path' raw' true
  /\ (forall metadata, json_loads (line2 t) = Ok metadata ->
      line3 t = line3 t' ->
      read_workspace path raw false = read_workspace path' raw' false
      /\ snd (read_text json_loads t false) = at_position t (after_line3 t) []).
Proof.
  intros Ho Ho' H1 H2. rewrite !read_workspace_cases, Ho, Ho'. split.
  - now apply read_text_same_header.
  - intros metadata Hm H3. split.
    + rewrite !read_text_with_payload, <- H1, <- H2, <- H3, Hm. reflexivity.
    + now rewrite (read_text_versioned json_loads t false metadata Hm).
Qed.

(** The version that is returned neither starts nor ends with white
    space: it is a stripped line, or ["0.9.0"]. *)
Theorem version_is_stripped (path : string) (raw : list byte)
  (metadata_only : bool) (version : string) (metadata : json)
  (data : option json) :
  read_workspace path raw metadata_only = Ok (version, metadata, data) ->
  stripped version.
Proof.
  rewrite read_workspace_cases.
  assert (Hlegacy : stripped "0.9.0") by (split; reflexivity).
  destruct (open_func raw) as [t|e_read].
  - destruct metadata_only.
    + rewrite read_text_metadata_only.
      destruct (json_loads (line2 t)) as [m|e].
      * intros [= <- _ _]. apply strip_is_stripped.
      * destruct (exn_eqb e JSONDecodeError); [|discriminate].
        now intros [= <- _ _].
    + rewrite read_text_with_payload.
      destruct (json_loads (line2 t)) as [m|e].
      * destruct (json_loads (line3 t)); [|discriminate].
        intros [= <- _ _]. apply strip_is_stripped.
      * destruct (exn_eqb e JSONDecodeError); [|discriminate].
        destruct (json_loads t); [|discriminate]. now intros [= <- _ _].
  - rewrite read_broken_run.
    set (d := fst (open_lines raw)). set (e_line := snd (open_lines raw)).
    destruct (header_delivered d).
    + destruct (json_loads (line2 d)) as [m|e].
      * destruct metadata_only; cbn [fst].
        -- intros [= <- _ _]. apply strip_is_stripped.
        -- destruct (single_line (line3 d)); [discriminate|]. cbn [fst].
           destruct (json_loads (line3 d)); [|discriminate].
           intros [= <- _ _]. apply strip_is_stripped.
      * destruct (exn_eqb e JSONDecodeError); [|discriminate].
        destruct metadata_only; [|discriminate]. now intros [= <- _ _].
    + destruct (exn_eqb e_line JSONDecodeError); [|discriminate].
      destruct metadata_only; [|discriminate]. now intros [= <- _ _].
Qed.

(** A file of fewer than two bytes, the empty file included, is never
    taken for a gzip file. *)
Theorem short_file_is_opened_as_text (raw : list byte) :
  List.length raw < 2 -> open_func raw = utf8_text raw.
Proof.
  intros Hlen. apply open_func_plain. intros H.
  apply (f_equal (@List.length byte)) in H.
  rewrite length_firstn in H.
  change (List.length gzip_magic) with 2 in H. lia.
Qed.

(** The metadata-only read of a file raises in two cases and no other:
    the stream breaks before it has delivered two lines, and the read
    raises the exception of the stream; or [json.loads] raises on line 2
    something other than [JSONDecodeError], and the read raises that. *)
Theorem metadata_only_read_fails_for_two_reasons (path : string)
  (raw : list byte) (e : exn) :
  read_workspace path raw true = Raise e
  <-> e <> JSONDecodeError
      /\ (header_lines raw = Raise e
          \/ exists l1 l2,
               header_lines raw = Ok (l1, l2) /\ json_loads l2 = Raise e).
Proof.
  rewrite read_metadata_only_by_header.
  destruct (header_lines raw) as [[l1 l2]|e'].
  - destruct (json_loads l2) as [m|e'] eqn:E.
    + split; [discriminate|].
      intros [_ [H|(x & y & [= <- <-] & H)]]; [discriminate|congruence].
    + destruct (exn_eqb e' JSONDecodeError) eqn:Ee.
      * assert (e' = JSONDecodeError) by (now destruct e'). subst e'.
        split; [discriminate|].
        intros [Hne [H|(x & y & [= <- <-] & H)]]; [discriminate|].
        rewrite E in H. injection H as <-. now elim Hne.
      * split.
        -- intros [= <-]. split; [intros ->; discriminate|].
           right. now exists l1, l2.
        -- intros [_ [H|(x & y & [= <- <-] & H)]]; [discriminate|congruence].
  - destruct (exn_eqb e' JSONDecodeError) eqn:Ee.
    + assert (e' = JSONDecodeError) by (now destruct e'). subst e'.
      split; [discriminate|].
      intros [Hne [[= <-]|(x & y & H & _)]]; [now elim Hne|discriminate].
    + split.
      * intros [= <-]. split; [intros ->; discriminate|now left].
      * intros [_ [[= <-]|(x & y & H & _)]]; [reflexivity|discriminate].
Qed.

(** A document on one line, with or without a final line feed, has no
    second line to decode: as [json.loads] rejects the empty string, the
    file is read as a legacy file, through either text layer. *)
Theorem one_line_file_is_legacy (path : string) (raw : list byte)
  (l : string) (final_line_feed : bool) :
  json_loads "" = Raise JSONDecodeError ->
  single_line l = true ->
  open_func raw = Ok (if final_line_feed then l ++ nl else l) ->
  read_workspace path raw true = Ok ("0.9.0", JObject [], None)
  /\ read_workspace path raw false
     = match json_loads (if final_line_feed then l ++ nl else l) with
       | Ok data => Ok ("0.9.0", JObject [], Some data)
       | Raise e => Raise e
       end.
Proof.
  intros Hempty Hl Hopen. rewrite !read_workspace_cases, Hopen.
  assert (E : line2 (if final_line_feed then l ++ nl else l) = "").
  { destruct final_line_feed.
    - change (l ++ nl) with (l ++ nl ++ "").
      unfold line2, line1, after_line1.
      now rewrite (split_line_app l "" Hl).
    - now apply lines_of_single_line. }
  rewrite !(read_text_legacy json_loads) by now rewrite E.
  split; reflexivity.
Qed.

End MoreReaderProperties.

(** * More on the walk *)

Lemma basename_join (path p : string) :
  no_separator_b p = true -> basename (join path p) = p.
Proof.
  intros Hp. unfold basename, join.
  assert (Hprefix : prefix sep p = false).
  { destruct p as [|c p]; [reflexivity|]. cbn in Hp.
    apply andb_true_iff in Hp as [Hc _]. apply negb_true_iff in Hc.
    unfold sep. cbn [prefix].
    destruct (ascii_dec "/" c) as [<-|N]; [discriminate|reflexivity]. }
  rewrite Hprefix.
  destruct (String.eqb_spec path "") as [->|_]; cbn [orb].
  - now apply last_component_app.
  - destruct (endswith path sep) eqn:E.
    + apply endswith_iff in E as [x ->].
      rewrite last_component_after_sep. now apply last_component_app.
    + rewrite <- string_app_assoc, last_component_after_sep.
      now apply last_component_app.
Qed.

Lemma outline_of_record_record (name : string) (files dirs : list json) :
  outline_of_record (record name files dirs)
  = match all_some (map entry_name files),
          all_some (map outline_of_record dirs) with
    | Some fs, Some ds => Some (Outline name fs ds)
    | _, _ => None
    end.
Proof. reflexivity. Qed.

Lemma child_outlines (g : string -> node -> outline)
  (children : list (string * node)) :
  flat_map (fun '(p, child) =>
              match child with
              | Dir _ => [g p child]
              | _ => []
              end) children
  = map (fun pc => g (fst pc) (snd pc))
      (filter (fun pc => is_dir (snd pc)) children).
Proof.
  induction children as [|[p [l|raw|]] children IH]; cbn; [reflexivity| | |];
    now rewrite IH.
Qed.

Lemma outline_of_tree_Dir (name : string) (children : list (string * node)) :
  outline_of_tree name (Dir children)
  = Outline name
      (map fst (filter is_workspace_file children))
      (map (fun pc => outline_of_tree (fst pc) (snd pc))
         (filter (fun pc => is_dir (snd pc)) children)).
Proof.
  cbn [outline_of_tree]. f_equal. apply (child_outlines outline_of_tree).
Qed.

Section MoreWalkProperties.

Variable json_loads : string -> result json.
Variables utf8_text gzip_text : list byte -> result string.
Variables utf8_lines gzip_lines : list byte -> string * exn.
Variable json_dump : json -> string.

Local Abbreviation open_func := (open_func utf8_text gzip_text).
Local Abbreviation read_workspace :=
  (read_workspace json_loads utf8_text gzip_text utf8_lines gzip_lines).
Local Abbreviation index_file := (index_file json_loads utf8_text gzip_text utf8_lines gzip_lines).
Local Abbreviation process_dir := (process_dir json_loads utf8_text gzip_text utf8_lines gzip_lines).
Local Abbreviation scan_directory :=
  (scan_directory json_loads utf8_text gzip_text utf8_lines gzip_lines).
Local Abbreviation for_listdir :=
  (for_listdir json_loads utf8_text gzip_text utf8_lines gzip_lines process_dir).
Local Abbreviation main := (main json_loads utf8_text gzip_text utf8_lines gzip_lines json_dump).
Local Abbreviation header_lines :=
  (header_lines utf8_text gzip_text utf8_lines gzip_lines).
Local Abbreviation path_of f := (fst (fst f)).
Local Abbreviation name_of f := (snd (fst f)).
Local Abbreviation raw_of f := (snd f).

(** ** The document mirrors the tree *)

Lemma entry_names (path : string) (l : list (string * node)) (fs : list json) :
  Forall2
    (fun pc metadata =>
       exists raw, snd pc = File raw
         /\ index_file (join path (fst pc)) (fst pc) raw = Ok metadata)
    l fs ->
  all_some (map entry_name fs) = Some (map fst l).
Proof.
  induction 1 as [|pc metadata l fs (raw & _ & Hidx) _ IH]; [reflexivity|].
  apply (index_file_name json_loads utf8_text gzip_text utf8_lines gzip_lines) in Hidx.
  cbn [map all_some]. unfold entry_name at 1. now rewrite Hidx, IH.
Qed.

(** When no name of the tree holds a separator, the record that the walk
    returns has the outline of the tree: every record has the three keys
    in their order and carries the name of its directory, its [files] are
    entries named after the workspace files of the directory, its [dirs]
    the records of the subdirectories, all in the order of the listing. *)
Theorem record_mirrors_the_tree (n : node) :
  forall (path : string) (r : json),
    well_named n = true ->
    scan_directory path n = Ok r ->
    outline_of_record r = Some (outline_of_tree (basename path) n).
Proof.
  induction n as [children IH|raw|] using node_induction;
    intros path r Hnames Hscan; [|discriminate|discriminate].
  unfold scan_directory in Hscan. rewrite process_dir_Dir in Hscan.
  destruct (for_listdir path children [] []) as [r0 t] eqn:E.
  cbn [fst] in Hscan. subst r0.
  destruct (for_listdir_record json_loads utf8_text gzip_text utf8_lines gzip_lines
              path children [] [] r t E) as (fs & ds & -> & Hf & Hd).
  cbn [app]. rewrite outline_of_record_record, outline_of_tree_Dir.
  rewrite (entry_names path _ fs Hf).
  assert (Hdirs : all_some (map outline_of_record ds)
                  = Some (map (fun pc => outline_of_tree (fst pc) (snd pc))
                            (filter (fun pc => is_dir (snd pc)) children))).
  { cbn [well_named] in Hnames. rewrite forallb_forall in Hnames.
    rewrite Forall_forall in IH.
    assert (Hin : Forall (fun pc => In pc children)
                    (filter (fun pc => is_dir (snd pc)) children)).
    { apply Forall_forall. intros pc Hpc. now apply filter_In in Hpc. }
    clear E Hf.
    induction Hd as [|pc d l ds' Hscan _ IHd]; [reflexivity|].
    pose proof (Forall_inv Hin) as Hpc.
    specialize (IHd (Forall_inv_tail Hin)).
    specialize (Hnames pc Hpc). specialize (IH pc Hpc).
    destruct pc as [p child]. cbn [fst snd] in *.
    apply andb_true_iff in Hnames as [Hp Hchild].
    cbn [map all_some].
    rewrite (IH (join path p) d Hchild Hscan), (basename_join path p Hp).
    now rewrite IHd. }
  now rewrite Hdirs.
Qed.

(** ** What the walk reads *)

Lemma workspace_files_end_with_extension (n : node) :
  forall path f,
    In f (workspace_files path n) -> endswith (path_of f) extension = true.
Proof.
  induction n as [children IH|raw|] using node_induction;
    intros path f Hf; [|destruct Hf|destruct Hf].
  rewrite workspace_files_Dir in Hf.
  apply in_flat_map in Hf as ([p child] & Hpc & Hf).
  rewrite Forall_forall in IH. specialize (IH _ Hpc).
  cbn [child_files snd] in *.
  destruct child as [l|raw|]; [now apply (IH (join path p))| |destruct Hf].
  destruct (endswith (join path p) extension) eqn:E; [|destruct Hf].
  destruct Hf as [<-|[]]. exact E.
Qed.

(** The walk opens no file but the workspace files of the tree: every
    path that it reads ends with [.grapycal] and is that of a regular file
    of the tree, whether the walk returns or raises. *)
Theorem walk_reads_workspace_files_only (path : string) (n : node)
  (p : string) :
  In (ReadHeader p) (snd (process_dir path n)) ->
  endswith p extension = true
  /\ exists name raw, In (p, name, raw) (workspace_files path n).
Proof.
  intros Hin.
  assert (Hfull : In (ReadHeader p) (full_walk path n)).
  { pose proof (walk_by_result json_loads utf8_text gzip_text utf8_lines gzip_lines n path) as H.
    destruct (process_dir path n) as [[r|e] t]; cbn [snd] in Hin.
    - destruct H as [<- _]. exact Hin.
    - destruct H as [[rest ->] _]. apply in_or_app. now left. }
  assert (Hread : In (ReadHeader p) (filter is_read (full_walk path n))).
  { apply filter_In. now split. }
  rewrite full_walk_reads in Hread.
  apply in_map_iff in Hread as ([[fp name] raw] & [= ->] & Hf).
  split; [exact (workspace_files_end_with_extension n path _ Hf)|].
  now exists name, raw.
Qed.

(** ** Why a walk raises *)

(** The walk of a directory raises for one of three reasons, at a
    workspace file of the tree: the stream of the file breaks before it
    has delivered two lines, and the walk raises the exception of the
    stream; or [json.loads] raises on line 2 something other than
    [JSONDecodeError], and the walk raises that; or line 2 decodes to a
    value that is no object, and the walk raises [TypeError]. *)
Theorem walk_raises_for_three_reasons (path : string)
  (children : list (string * node)) (e : exn) :
  scan_directory path (Dir children) = Raise e ->
  exists f,
    In f (workspace_files path (Dir children))
    /\ ((e <> JSONDecodeError /\ header_lines (raw_of f) = Raise e)
        \/ (e <> JSONDecodeError
            /\ exists l1 l2,
                header_lines (raw_of f) = Ok (l1, l2)
                /\ json_loads l2 = Raise e)
        \/ (e = TypeError
            /\ exists l1 l2 metadata,
                header_lines (raw_of f) = Ok (l1, l2)
                /\ json_loads l2 = Ok metadata
                /\ forall d, metadata <> JObject d)).
Proof.
  intros Hscan.
  pose proof (walk_by_result json_loads utf8_text gzip_text utf8_lines
                gzip_lines (Dir children) path) as H.
  unfold scan_directory in Hscan.
  destruct (process_dir path (Dir children)) as [[r|e'] t];
    cbn [fst] in Hscan; [discriminate|]. injection Hscan as ->.
  destruct H as [_ Hfail].
  destruct (Hfail eq_refl) as (before & [[fp name] raw] & after & -> & _ & Hf).
  exists (fp, name, raw). split; [apply in_or_app; right; now left|].
  cbn [index_entry] in Hf. unfold index_file in Hf. cbn [snd].
  destruct (read_workspace fp raw true) as [[[version metadata] data]|e0] eqn:E.
  - right. right.
    rewrite (read_metadata_only_by_header json_loads utf8_text gzip_text
               utf8_lines gzip_lines) in E.
    destruct (header_lines raw) as [[l1 l2]|e0].
    + destruct (json_loads l2) as [m|e0] eqn:E2.
      * injection E as _ <- _.
        destruct m; cbn in Hf; try discriminate;
          injection Hf as <-; (split; [reflexivity|]);
          eexists l1, l2, _; (split; [reflexivity|]); (split; [exact E2|]);
          discriminate.
      * destruct (exn_eqb e0 JSONDecodeError); [|discriminate].
        injection E as _ <- _. discriminate.
    + destruct (exn_eqb e0 JSONDecodeError); [|discriminate].
      injection E as _ <- _. discriminate.
  - injection Hf as ->.
    apply (metadata_only_read_fails_for_two_reasons json_loads utf8_text
             gzip_text utf8_lines gzip_lines) in E as [Hne [H|H]].
    + left. now split.
    + right. left. now split.
Qed.

(** ** What the index depends on *)

Lemma index_file_same_header (full_path p : string) (raw raw' : list byte) :
  same_header header_lines raw raw' ->
  index_file full_path p raw = index_file full_path p raw'.
Proof.
  unfold same_header, index_file. intros H.
  rewrite !(read_metadata_only_by_header json_loads utf8_text gzip_text
              utf8_lines gzip_lines).
  now rewrite H.
Qed.

(** ** A read that raises *)


(** Two trees with the same names and kinds of entries, whose workspace
    files agree on their first two lines, are walked alike: the same
    record or exception, the same calls.  The payload of a workspace file
    and the content of any other file play no part. *)
Theorem index_depends_on_names_and_headers (n n' : node) :
  same_index header_lines n n' ->
  forall path, process_dir path n = process_dir path n'.
Proof.
  intros H.
  induction H using same_index_mutual
    with (P0 := fun cs cs' =>
                  forall path folders files,
                    for_listdir path cs folders files
                    = for_listdir path cs' folders files);
    try reflexivity.
  - intros path. rewrite !process_dir_Dir. now rewrite IHsame_index.
  - intros path folders files. rewrite !for_listdir_cons.
    destruct H as [l l' Hl|raw raw'|].
    + rewrite (IHsame_index (join path p)).
      destruct (process_dir (join path p) (Dir l')) as [[d|e] t];
        [|reflexivity].
      now rewrite IHsame_index0.
    + destruct (endswith p extension) eqn:E; [|apply IHsame_index0].
      rewrite (index_file_same_header (join path p) p raw raw')
        by now apply H0.
      destruct (index_file (join path p) p raw'); [|reflexivity].
      now rewrite IHsame_index0.
    + apply IHsame_index0.
Qed.

(** ** When the walk returns *)

(** A file is indexed when lines 77 and 78 give an object, or raise the
    [JSONDecodeError] that the [except] clause catches. *)
Lemma indexed_iff (f : string * string * list byte) :
  indexed index_file f
  <-> match header_decoded json_loads header_lines (raw_of f) with
      | Ok (_, metadata) => exists d, metadata = JObject d
      | Raise e => e = JSONDecodeError
      end.
Proof.
  destruct f as [[fp name] raw]. unfold indexed. cbn [index_entry snd].
  unfold index_file, header_decoded.
  rewrite (read_metadata_only_by_header json_loads utf8_text gzip_text
             utf8_lines gzip_lines).
  assert (Hcaught : forall e,
             (exists m,
                 match (if exn_eqb e JSONDecodeError
                        then Ok ("0.9.0", JObject [], @None json)
                        else Raise e) with
                 | Ok (_, metadata, _) => setitem metadata "name" (JString name)
                 | Raise e' => Raise e'
                 end = Ok m)
             <-> e = JSONDecodeError).
  { intros e. destruct e; cbn; split; try discriminate; try reflexivity;
      try (intros [m Hm]; discriminate); intros _; now eexists. }
  destruct (header_lines raw) as [[l1 l2]|e]; [|apply Hcaught].
  destruct (json_loads l2) as [metadata|e]; [|apply Hcaught].
  split.
  - intros [m Hm]. destruct metadata; try discriminate. now eexists.
  - intros [d ->]. now eexists.
Qed.

(** The walk of a directory returns a record exactly when, for every
    workspace file of the tree, the first two lines are delivered and
    line 2 decodes to an object or is rejected by [json.loads] with a
    [JSONDecodeError]. *)
Theorem walk_returns_iff_every_file_is_indexable (path : string)
  (children : list (string * node)) :
  (exists r, scan_directory path (Dir children) = Ok r)
  <-> Forall
        (fun f =>
           match header_decoded json_loads header_lines (raw_of f) with
           | Ok (_, metadata) => exists d, metadata = JObject d
           | Raise e => e = JSONDecodeError
           end)
        (workspace_files path (Dir children)).
Proof.
  pose proof (walk_by_result json_loads utf8_text gzip_text utf8_lines
                gzip_lines (Dir children) path) as H.
  unfold scan_directory.
  destruct (process_dir path (Dir children)) as [[r|e] t]; cbn [fst].
  - destruct H as [_ Hall]. split; [intros _|intros _; now exists r].
    apply (Forall_impl _ (fun f Hf => proj1 (indexed_iff f) Hf) Hall).
  - destruct H as [_ Hfail]. specialize (Hfail eq_refl).
    split; [intros [r Hr]; discriminate|]. intros Hall. exfalso.
    apply (first_failure_not_all json_loads utf8_text gzip_text utf8_lines
             gzip_lines e _ Hfail).
    apply (Forall_impl _ (fun f Hf => proj2 (indexed_iff f) Hf) Hall).
Qed.

(** ** [main] *)

(** A run of [main] that returns leaves the tree as it is and writes the
    dump of the record of the walk, whose name is ["files"] whatever the
    project directory; what [metadata.json] held before plays no part, and
    a second run changes nothing. *)
Theorem main_writes_the_record_of_files (root : string) (w w' : project) :
  main root w = (Ok tt, w') ->
  files_dir w' = files_dir w
  /\ (exists files dirs,
         scan_directory (join root "files") (files_dir w)
         = Ok (record "files" files dirs)
         /\ metadata_json w' = Some (json_dump (record "files" files dirs)))
  /\ (forall old,
         main root {| files_dir := files_dir w; metadata_json := old |}
         = (Ok tt, w'))
  /\ main root w' = (Ok tt, w').
Proof.
  unfold main.
  destruct (scan_directory (join root "files") (files_dir w)) as [r|e] eqn:E;
    [|discriminate].
  intros [= <-]. cbn [files_dir metadata_json]. rewrite E.
  repeat split; try reflexivity.
  destruct (files_dir w) as [children|raw|]; [|discriminate|discriminate].
  unfold scan_directory in E. rewrite process_dir_Dir in E.
  destruct (for_listdir (join root "files") children [] []) as [r0 t] eqn:El.
  cbn [fst] in E. subst r0.
  destruct (for_listdir_record json_loads utf8_text gzip_text utf8_lines gzip_lines
              _ children [] [] r t El) as (fs & ds & -> & _ & _).
  rewrite (basename_join root "files" eq_refl).
  exists fs, ds. cbn [app]. now split.
Qed.

End MoreWalkProperties.

(** * More scenarios, run *)



(** C5.  A gzip file and the plain file of the same content, read under
    a locale whose encoding is ISO 8859-1: the first two bytes choose
    gzip for the one and UTF-8 text for the other, the decompressed
    content is the content of the plain file, and the two reads differ,
    because the text of the gzip stream is decoded with the encoding of
    the locale. *)
Theorem gzip_text_follows_the_locale :
  firstn 2 (gzipped versioned_titled) = gzip_magic
  /\ firstn 2 (plain versioned_titled) <> gzip_magic
  /\ Gzip.reads (gzipped versioned_titled) = ([plain versioned_titled], None)
  /\ Run.read_workspace_latin1 "a.txt" (plain versioned_titled) true
     = Ok ("0.9.0", JObject [("title", JString (Json.utf8_encode 233))], None)
  /\ Run.read_workspace_latin1 "a.grapycal" (gzipped versioned_titled) true
     = Ok ("0.9.0",
           JObject [("title",
                     JString (Json.utf8_encode 195 ++ Json.utf8_encode 169))],
           None)
  /\ Run.read_workspace_latin1 "a.grapycal" (gzipped versioned_titled) true
     <> Run.read_workspace_latin1 "a.txt" (plain versioned_titled) true
  /\ Run.read_workspace "a.grapycal" (gzipped versioned_titled) true
     = Run.read_workspace "a.txt" (plain versioned_titled) true.
Proof.
  repeat split; try (vm_compute; reflexivity); vm_compute; discriminate.
Qed.

(** A stream decodes what is read of it.  The header of a file whose
    bytes beyond the first 8192 are no UTF-8 is read; the payload is not:
    its line has no end in what the stream delivers. *)
Example late_undecodable_byte_is_not_read :
  Utf8.text Scenario.late_undecodable = Raise UnicodeDecodeError
  /\ Run.read_workspace "a.grapycal" Scenario.late_undecodable true
     = Ok ("0.9.0", JObject [("extensions", JArray [JString "grapycal_torch"])],
           None)
  /\ Run.read_workspace "a.grapycal" Scenario.late_undecodable false
     = Raise UnicodeDecodeError
  /\ Run.scan_directory "ws"
       (Dir [("a.grapycal", File Scenario.late_undecodable)])
     = Ok (record "ws"
             [JObject [("extensions", JArray [JString "grapycal_torch"]);
                       ("name", JString "a.grapycal")]] []).
Proof. repeat split; vm_compute; reflexivity. Qed.

(** The CRC-32 of a gzip file is checked by the read that comes after
    its data: the header of a file with a wrong checksum is read, and so
    is a payload line that ends with a line feed; a read that reaches the
    end of the data raises, as the second [readline] on a file of one
    line does. *)
Example wrong_checksum_is_found_at_the_end :
  Gzip.text (gzipped_bad_crc (versioned ++ nl)) = Raise BadGzipFile
  /\ Run.read_workspace "a.grapycal" (gzipped_bad_crc (versioned ++ nl)) true
     = Ok ("0.9.0", JObject [("extensions", JArray [JString "grapycal_torch"])],
           None)
  /\ Run.read_workspace "a.grapycal" (gzipped_bad_crc (versioned ++ nl)) false
     = Ok ("0.9.0", JObject [("extensions", JArray [JString "grapycal_torch"])],
           Some (JObject []))
  /\ Run.read_workspace "a.grapycal" (gzipped_bad_crc versioned) false
     = Raise BadGzipFile
  /\ Run.read_workspace "old.grapycal" (gzipped_bad_crc legacy) true
     = Raise BadGzipFile.
Proof. repeat split; vm_compute; reflexivity. Qed.

(** Files as [gzip] writes them, with Huffman codes, the fixed ones and
    ones of their own: they are decompressed to the text that was
    written, and read as that text is. *)
Example compressed_files_are_decompressed :
  Gzip.reads deflated_versioned = ([plain versioned], None)
  /\ Run.read_workspace "b.grapycal" deflated_versioned false
     = Ok ("0.9.0", JObject [("extensions", JArray [JString "grapycal_torch"])],
           Some (JObject []))
  /\ Gzip.reads deflated_graph = ([plain versioned_graph], None)
  /\ Gzip.text deflated_graph = Ok versioned_graph
  /\ Run.read_workspace "c.grapycal" deflated_graph true
     = Ok ("0.11.3",
           JObject [("extensions",
                     JArray [JString "grapycal_builtin"; JString "grapycal_torch"]);
                    ("title", JString "demo")],
           None)
  /\ Run.read_workspace "c.grapycal" deflated_graph false
     = Run.read_workspace "c.grapycal" (plain versioned_graph) false
  /\ (exists data,
        Run.read_workspace "c.grapycal" deflated_graph false
        = Ok ("0.11.3",
              JObject [("extensions",
                        JArray [JString "grapycal_builtin"; JString "grapycal_torch"]);
                       ("title", JString "demo")],
              Some data)).
Proof. repeat split; try (eexists; vm_compute; reflexivity); vm_compute; reflexivity. Qed.

(** A compressed file that is cut short, and one with a bit of its
    compressed data flipped: [EOFError], and [zlib.error] or a wrong
    checksum. *)
Example damaged_compressed_files_raise :
  Gzip.text (firstn 60 deflated_versioned) = Raise EOFError
  /\ Run.read_workspace "b.grapycal" (firstn 60 deflated_versioned) true
     = Raise EOFError
  /\ Gzip.text (firstn 21 deflated_versioned ++ [x03] ++ skipn 22 deflated_versioned)
     = Raise BadGzipFile
  /\ Gzip.text (firstn 21 deflated_versioned ++ [x37] ++ skipn 22 deflated_versioned)
     = Raise ZlibError.
Proof. repeat split; vm_compute; reflexivity. Qed.

(** The two limits of the decoder that runs. *)
Example decoder_limits :
  Json.loads (concat "" (repeat "[" 993) ++ concat "" (repeat "]" 993))
  = Raise RecursionError
  /\ Json.loads (concat "" (repeat "1" 4301)) = Raise ValueError
  /\ Run.read_workspace "a.grapycal"
       (plain ("0.9.0" ++ nl ++ concat "" (repeat "1" 4301) ++ nl ++ "{}")) true
     = Raise ValueError.
Proof. repeat split; vm_compute; reflexivity. Qed.

Lemma legacy_scenario_with_line_feed :
  Run.read_workspace "old.grapycal" (plain (legacy ++ nl)) true
  = Ok ("0.9.0", JObject [], None)
  /\ Run.read_workspace "old.grapycal" (plain (legacy ++ nl)) false
     = match Json.loads (legacy ++ nl) with
       | Ok data => Ok ("0.9.0", JObject [], Some data)
       | Raise e => Raise e
       end.
Proof.
  apply (one_line_file_is_legacy Json.loads Utf8.text Gzip.text Utf8.lines
           Gzip.lines "old.grapycal" (plain (legacy ++ nl)) legacy true);
    vm_compute; reflexivity.
Defined.

Lemma gzip_scenario_with_payload :
  Run.read_workspace "ws/a.grapycal" (gzipped versioned) true
  = Ok ("0.9.0",
        JObject [("extensions", JArray [JString "grapycal_torch"])], None).
Proof.
  apply (full_read_extends_metadata_only_read Json.loads Utf8.text Gzip.text
           Utf8.lines Gzip.lines "ws/a.grapycal" (gzipped versioned)
           "0.9.0" (JObject [("extensions", JArray [JString "grapycal_torch"])])
           (Some (JObject []))).
  vm_compute; reflexivity.
Defined.

Lemma bad_payload_reads_as_good_payload :
  Run.read_workspace "a.grapycal" (gzipped versioned) true
  = Run.read_workspace "b.grapycal" (plain versioned_bad_payload) true
  /\ (forall metadata, Json.loads (line2 versioned) = Ok metadata ->
      line3 versioned = line3 versioned_bad_payload ->
      Run.read_workspace "a.grapycal" (gzipped versioned) false
      = Run.read_workspace "b.grapycal" (plain versioned_bad_payload) false
      /\ snd (read_text Json.loads versioned false)
         = at_position versioned (after_line3 versioned) []).
Proof.
  apply (read_depends_on_the_first_lines Json.loads Utf8.text Gzip.text Utf8.lines Gzip.lines
           "a.grapycal" "b.grapycal" (gzipped versioned)
           (plain versioned_bad_payload) versioned versioned_bad_payload);
    vm_compute; reflexivity.
Defined.

Lemma padded_version_is_stripped : stripped "0.9.0".
Proof.
  apply (version_is_stripped Json.loads Utf8.text Gzip.text Utf8.lines Gzip.lines "a.grapycal"
           (plain ("  0.9.0 " ++ nl ++ "{}" ++ nl ++ "{}")) true
           "0.9.0" (JObject []) None).
  vm_compute; reflexivity.
Defined.

Lemma one_magic_byte_is_opened_as_text :
  open_func Utf8.text Gzip.text [x1f] = Utf8.text [x1f].
Proof.
  apply (short_file_is_opened_as_text Utf8.text Gzip.text [x1f]).
  cbn. lia.
Defined.

(** A file that is no UTF-8 text from its first byte on: the first read
    raises. *)
Lemma undecodable_file_is_not_read :
  Run.read_workspace "x.grapycal" [xff] true = Raise UnicodeDecodeError.
Proof.
  apply (proj2 (metadata_only_read_fails_for_two_reasons Json.loads Utf8.text
                  Gzip.text Utf8.lines Gzip.lines "x.grapycal" [xff]
                  UnicodeDecodeError)).
  split; [discriminate|]. left. vm_compute; reflexivity.
Defined.

Lemma nested_scenario_outline :
  outline_of_record
    (record "ws"
       [JObject [("name", JString "old.grapycal")]]
       [record "folder1"
          [JObject [("extensions", JArray [JString "grapycal_torch"]);
                    ("name", JString "b.grapycal")]] []])
  = Some (outline_of_tree (basename "ws") ws_nested).
Proof.
  apply (record_mirrors_the_tree Json.loads Utf8.text Gzip.text Utf8.lines Gzip.lines ws_nested "ws");
    vm_compute; reflexivity.
Defined.

Lemma nested_scenario_reads :
  endswith "ws/folder1/b.grapycal" extension = true
  /\ exists name raw,
      In ("ws/folder1/b.grapycal", name, raw) (workspace_files "ws" ws_nested).
Proof.
  apply (walk_reads_workspace_files_only Json.loads Utf8.text Gzip.text Utf8.lines Gzip.lines
           "ws" ws_nested).
  vm_compute. right. right. left. reflexivity.
Defined.

Lemma number_header_raises_type_error :
  exists f,
    In f (workspace_files "ws" ws_number_header)
    /\ ((TypeError <> JSONDecodeError
         /\ header_lines Utf8.text Gzip.text Utf8.lines Gzip.lines (snd f)
            = Raise TypeError)
        \/ (TypeError <> JSONDecodeError
            /\ exists l1 l2,
                header_lines Utf8.text Gzip.text Utf8.lines Gzip.lines (snd f)
                = Ok (l1, l2)
                /\ Json.loads l2 = Raise TypeError)
        \/ (TypeError = TypeError
            /\ exists l1 l2 metadata,
                header_lines Utf8.text Gzip.text Utf8.lines Gzip.lines (snd f)
                = Ok (l1, l2)
                /\ Json.loads l2 = Ok metadata
                /\ forall d, metadata <> JObject d)).
Proof.
  apply (walk_raises_for_three_reasons Json.loads Utf8.text Gzip.text
           Utf8.lines Gzip.lines "ws"
           [ ("a.grapycal", File (plain number_header));
             ("b.grapycal", File (plain versioned)) ] TypeError).
  vm_compute; reflexivity.
Defined.

Lemma edited_scenario_is_indexed_alike :
  Run.process_dir "ws" ws_nested = Run.process_dir "ws" ws_nested_edited.
Proof.
  apply (index_depends_on_names_and_headers Json.loads Utf8.text Gzip.text Utf8.lines Gzip.lines
           ws_nested ws_nested_edited).
  apply same_dir.
  apply same_cons;
    [apply same_file
    |intros raw raw' _ _ Hext; vm_compute in Hext; discriminate|].
  apply same_cons;
    [|intros raw raw' Hraw; discriminate|].
  { apply same_dir. apply same_cons; [apply same_file| |apply same_nil].
    intros raw raw' [= <-] [= <-] _. vm_compute. reflexivity. }
  apply same_cons; [apply same_file| |].
  { intros raw raw' [= <-] [= <-] _. vm_compute. reflexivity. }
  apply same_cons; [apply same_other| |apply same_nil].
  intros raw raw' Hraw; discriminate.
Defined.

Lemma corrupted_scenario_is_rewritten_alike :
  files_dir
    {| files_dir := ws_corrupted;
       metadata_json :=
         Some (Json.dumps
                 (record "files" [JObject [("name", JString "x.grapycal")]] []))
    |} = ws_corrupted
  /\ (exists files dirs,
         Run.scan_directory (join "/repo" "files") ws_corrupted
         = Ok (record "files" files dirs)
         /\ Some (Json.dumps
                    (record "files" [JObject [("name", JString "x.grapycal")]] []))
            = Some (Json.dumps (record "files" files dirs)))
  /\ (forall old,
         Run.main "/repo" {| files_dir := ws_corrupted; metadata_json := old |}
         = (Ok tt,
            {| files_dir := ws_corrupted;
               metadata_json :=
                 Some (Json.dumps
                         (record "files"
                            [JObject [("name", JString "x.grapycal")]] [])) |}))
  /\ Run.main "/repo"
       {| files_dir := ws_corrupted;
          metadata_json :=
            Some (Json.dumps
                    (record "files"
                       [JObject [("name", JString "x.grapycal")]] [])) |}
     = (Ok tt,
        {| files_dir := ws_corrupted;
           metadata_json :=
             Some (Json.dumps
                     (record "files"
                        [JObject [("name", JString "x.grapycal")]] [])) |}).
Proof.
  apply (main_writes_the_record_of_files Json.loads Utf8.text Gzip.text Utf8.lines Gzip.lines
           Json.dumps "/repo"
           {| files_dir := ws_corrupted; metadata_json := Some "stale" |}).
  vm_compute; reflexivity.
Defined.

Lemma nested_scenario_is_indexable :
  exists r, Run.scan_directory "ws" ws_nested = Ok r.
Proof.
  apply (proj2 (walk_returns_iff_every_file_is_indexable Json.loads Utf8.text
                  Gzip.text Utf8.lines Gzip.lines "ws"
                  [ ("notes.txt", File (plain "hello"));
                    ("folder1",
                     Dir [ ("b.grapycal", File (gzipped versioned)) ]);
                    ("old.grapycal", File (plain legacy));
                    ("link", Other) ])).
  apply Forall_forall. intros f Hf. vm_compute in Hf.
  repeat (destruct Hf as [<-|Hf]; [vm_compute; eauto|]).
  destruct Hf.
Defined.
